(** * QHack challenge scripts: the Hamiltonian text parser and the two drivers

    A shallow embedding of
    - [QML_Challenges/vqe_500_template/vqe_500_template.py]
      ([pauli_token_to_operator], [parse_hamiltonian_input],
      [find_excited_states] and the [__main__] block), and
    - [QML_Challenges/simple_circuits_30_template/simple_circuits_30_template.py]
      ([simple_circuits_30] and the [__main__] block).

    Python strings are modelled as [string], one [ascii] per code point
    below 256.  A Python [float] is an IEEE binary64 number, modelled by
    [spec_float] with [prec = 53] and [emax = 1024].  Standard output is
    the list of the lines printed so far, and an uncaught exception is a
    value of [exn]. *)

From Stdlib Require Import ZArith List String Ascii Bool Lia.
From Stdlib Require Import Floats.SpecFloat.
From Stdlib Require Import Reals Lra.
From Stdlib Require Decimal DecimalString DecimalPos.
Import ListNotations.

Set Warnings "-notation-for-abbreviation".

Local Open Scope string_scope.
Local Open Scope list_scope.

(** ** Characters *)

Definition code (c : ascii) : N := N_of_ascii c.

(** [str.isspace] on a single code point below 256. *)
Definition py_isspace (c : ascii) : bool :=
  let n := code c in
  ((9 <=? n) && (n <=? 13) || (28 <=? n) && (n <=? 32)
   || (n =? 133) || (n =? 160))%N.

(** The white space that [int] and [float] skip: the C locale's
    [isspace], and the two non-ASCII spaces below 256, which the
    conversion first rewrites to [" "]. *)
Definition num_isspace (c : ascii) : bool :=
  let n := code c in
  ((9 <=? n) && (n <=? 13) || (n =? 32) || (n =? 133) || (n =? 160))%N.

Definition is_digit (c : ascii) : bool :=
  let n := code c in ((48 <=? n) && (n <=? 57))%N.

Definition digit_val (c : ascii) : Z := Z.of_N (code c) - 48.

Definition to_lower (c : ascii) : ascii :=
  let n := code c in
  if ((65 <=? n) && (n <=? 90))%N then ascii_of_N (n + 32) else c.

(** ** [str.strip] and [str.split] *)

Fixpoint lstrip (ws : ascii -> bool) (s : string) : string :=
  match s with
  | String c s' => if ws c then lstrip ws s' else s
  | EmptyString => EmptyString
  end.

Fixpoint rstrip (ws : ascii -> bool) (s : string) : string :=
  match s with
  | EmptyString => EmptyString
  | String c s' =>
      match rstrip ws s' with
      | EmptyString => if ws c then EmptyString else String c EmptyString
      | r => String c r
      end
  end.

(** [s.strip()] *)
Definition strip (s : string) : string := rstrip py_isspace (lstrip py_isspace s).

(** [s.split(sep)] for a separator of one character: the pieces between
    the separators, empty pieces included, never the empty list. *)
Fixpoint split (sep : ascii) (s : string) : list string :=
  match s with
  | EmptyString => [EmptyString]
  | String c s' =>
      if Ascii.eqb c sep then EmptyString :: split sep s'
      else match split sep s' with
           | h :: t => String c h :: t
           | [] => [String c EmptyString]
           end
  end.

(** [sep.join(l)] *)
Fixpoint join (sep : string) (l : list string) : string :=
  match l with
  | [] => EmptyString
  | [x] => x
  | x :: rest => x ++ sep ++ join sep rest
  end.

(** ** Exceptions and standard output *)

Inductive exn : Type :=
| ValueError_float (arg : string)   (* could not convert string to float *)
| ValueError_int (arg : string)     (* invalid literal for int() with base 10 *)
| ValueError_Hamiltonian            (* numbers of coefficients and operators differ *)
| ValueError_item                   (* can only convert an array of size 1 *)
| IndexError_list                   (* list index out of range *)
| IndexError_string                 (* string index out of range *)
| TypeError (msg : string).

Inductive result (A : Type) : Type :=
| Return (a : A)
| Raise (e : exn).
Arguments Return {A} a.
Arguments Raise {A} e.

(** A computation that prints lines and then returns or raises. *)
Definition Out (A : Type) : Type := (list string * result A)%type.

Definition ret {A} (a : A) : Out A := ([], Return a).
Definition raise {A} (e : exn) : Out A := ([], Raise e).
Definition print (line : string) : Out unit := ([line], Return tt).

Definition bind {A B} (m : Out A) (k : A -> Out B) : Out B :=
  match m with
  | (o, Return a) => let (o', r) := k a in (o ++ o', r)
  | (o, Raise e) => (o, Raise e)
  end.

Declare Scope out_scope.
Delimit Scope out_scope with out.
Notation "x <- m ;; k" := (bind m (fun x => k))
  (at level 100, m at next level, right associativity) : out_scope.
Notation "m ;;; k" := (bind m (fun _ => k))
  (at level 100, right associativity) : out_scope.
Local Open Scope out_scope.

(** Mapping the returned value of a computation. *)
Definition omap {A B} (f : A -> B) (m : Out A) : Out B :=
  (fst m, match snd m with Return a => Return (f a) | Raise e => Raise e end).

Definition stdout {A} (m : Out A) : list string := fst m.
Definition outcome {A} (m : Out A) : result A := snd m.

(** The exit status of the interpreter: 0 after a normal end, 1 after an
    uncaught exception. *)
Definition exit_status {A} (r : result A) : nat :=
  match r with Return _ => 0 | Raise _ => 1 end.

(** ** The builtin [int] on strings *)

(** The largest number of digits that [int] converts: the default of
    [sys.int_info.default_max_str_digits], in force since CPython 3.11. *)
Definition max_str_digits : Z := 4300.

(** Digits and single underscores between them, most significant first:
    their value on top of [acc] and their number on top of [n]; stops at
    the first other character. *)
Fixpoint scan_int (s : string) (prev_us : bool) (acc : Z) (n : Z)
  : option (Z * Z * string) :=
  match s with
  | EmptyString => if prev_us then None else Some (acc, n, EmptyString)
  | String c s' =>
      if is_digit c then scan_int s' false (10 * acc + digit_val c) (n + 1)
      else if Ascii.eqb c "_" then
             if prev_us then None else scan_int s' true acc n
      else if prev_us then None else Some (acc, n, s)
  end.

Definition strip_sign (s : string) : bool * string :=
  match s with
  | String "-" s' => (true, s')
  | String "+" s' => (false, s')
  | _ => (false, s)
  end.

(** [int(s)] in base 10: [None] stands for [ValueError], which is also
    what more than [max_str_digits] digits end in. *)
Definition py_int (s : string) : option Z :=
  let (neg, s1) := strip_sign (lstrip num_isspace s) in
  match s1 with
  | String c _ =>
      if is_digit c then
        match scan_int s1 false 0 0 with
        | Some (v, n, rest) =>
            if (max_str_digits <? n)%Z then None
            else
              match lstrip num_isspace rest with
              | EmptyString => Some (if neg then - v else v)%Z
              | _ => None
              end
        | None => None
        end
      else None
  | EmptyString => None
  end.

(** ** The builtin [float] on strings *)

Definition float : Type := spec_float.
Definition prec : Z := 53.
Definition emax : Z := 1024.

(** Underscores are dropped when they stand between two digits and are
    an error anywhere else. *)
Fixpoint remove_underscores (s : string) (prev : ascii) : option string :=
  match s with
  | EmptyString => if Ascii.eqb prev "_" then None else Some EmptyString
  | String c s' =>
      if Ascii.eqb c "_" then
        if is_digit prev then remove_underscores s' c else None
      else if Ascii.eqb prev "_" && negb (is_digit c) then None
      else option_map (String c) (remove_underscores s' c)
  end.

(** The leading digits of [s]: their value on top of [acc], their number
    on top of [n], and what follows them. *)
Fixpoint take_digits (s : string) (acc : Z) (n : Z) : Z * Z * string :=
  match s with
  | String c s' =>
      if is_digit c then take_digits s' (10 * acc + digit_val c) (n + 1)
      else (acc, n, s)
  | EmptyString => (acc, n, s)
  end.

(** The binary64 number nearest to [(-1)^neg * m * 10^e], ties to even. *)
Definition round_decimal (neg : bool) (m : Z) (e : Z) : float :=
  if (0 <=? e)%Z then
    match (m * 10 ^ e)%Z with
    | Zpos q => binary_round prec emax neg q 0
    | _ => S754_zero neg
    end
  else
    match m, (10 ^ (- e))%Z with
    | Zpos p, Zpos q =>
        SFdiv prec emax (S754_finite neg p 0) (S754_finite false q 0)
    | _, _ => S754_zero neg
    end.

(** An optional exponent part: [e] or [E], an optional sign and at least
    one digit.  Without a digit nothing is consumed. *)
Definition take_exponent (s : string) : Z * string :=
  match s with
  | String c s' =>
      if Ascii.eqb (to_lower c) "e" then
        let (neg, s2) := strip_sign s' in
        match take_digits s2 0 0 with
        | (_, 0%Z, _) => (0%Z, s)
        | (v, _, rest) => ((if neg then - v else v)%Z, rest)
        end
      else (0%Z, s)
  | EmptyString => (0%Z, s)
  end.

(** A decimal literal: sign, digits, an optional point and digits (one
    digit at least in all), an optional exponent, and nothing after. *)
Definition parse_decimal (s : string) : option float :=
  let (neg, s1) := strip_sign s in
  let '(ip, ni, s2) := take_digits s1 0 0 in
  let '(m, nf, s3) :=
    match s2 with
    | String "." s2' => let '(v, n, r) := take_digits s2' ip 0 in (v, n, r)
    | _ => (ip, 0%Z, s2)
    end in
  if ((ni + nf) =? 0)%Z then None
  else
    match take_exponent s3 with
    | (ex, EmptyString) => Some (round_decimal neg m (ex - nf))
    | _ => None
    end.

Fixpoint lower (s : string) : string :=
  match s with
  | EmptyString => EmptyString
  | String c s' => String (to_lower c) (lower s')
  end.

(** [inf], [infinity] and [nan], in any case, with an optional sign. *)
Definition parse_inf_or_nan (s : string) : option float :=
  let (neg, s1) := strip_sign s in
  let l := lower s1 in
  if String.eqb l "inf" || String.eqb l "infinity" then Some (S754_infinity neg)
  else if String.eqb l "nan" then Some S754_nan
  else None.

(** [float(s)]: [None] stands for [ValueError]. *)
Definition py_float (s : string) : option float :=
  match (rstrip num_isspace (lstrip num_isspace s)) with
  | EmptyString => None
  | body =>
      match remove_underscores body "000" with
      | Some t =>
          match parse_decimal t with
          | Some x => Some x
          | None => parse_inf_or_nan t
          end
      | None => None
      end
  end.

(** [float(z)] of an [int], and the product [x * z] of a [float] and an
    [int], which converts the [int] first. *)
Definition float_of_int (z : Z) : float := binary_normalize prec emax z 0 false.
Definition float_mul_int (x : float) (z : Z) : float :=
  SFmul prec emax x (float_of_int z).

(** [int(s)] and [float(s)] as computations. *)
Definition int_ (s : string) : Out Z :=
  match py_int s with
  | Some z => ret z
  | None => raise (ValueError_int s)
  end.

Definition float_ (s : string) : Out float :=
  match py_float s with
  | Some x => ret x
  | None => raise (ValueError_float s)
  end.

(** [l[i]] on a list. *)
Definition getitem {A} (l : list A) (i : nat) : Out A :=
  match nth_error l i with
  | Some x => ret x
  | None => raise IndexError_list
  end.

(** ** The operators of the simulation library

    The constructors [qml.Identity], [qml.PauliX], [qml.PauliY] and
    [qml.PauliZ] applied to a wire label, and the product [a @ b], as
    uninterpreted terms. *)

Inductive Operator : Type :=
| Identity (wires : Z)
| PauliX (wires : Z)
| PauliY (wires : Z)
| PauliZ (wires : Z)
| Matmul (a b : Operator).

Record Hamiltonian : Type := mkHamiltonian
  { coeffs : list float;
    ops : list Operator }.

(** [qml.Hamiltonian(coeffs, observables)], which refuses lists of
    different lengths. *)
Definition qml_Hamiltonian (coeffs : list float) (observables : list Operator)
  : Out Hamiltonian :=
  if Nat.eqb (List.length coeffs) (List.length observables)
  then ret (mkHamiltonian coeffs observables)
  else raise ValueError_Hamiltonian.

(** ** [pauli_token_to_operator] *)

(** One round of the loop [for term in token] on the list [qubit_terms]
    built so far. *)
Definition token_step (qubit_terms : list Operator) (term : string)
  : Out (list Operator) :=
  if String.eqb term "I" then ret (qubit_terms ++ [Identity 0])
  else
    match term with
    | EmptyString => raise IndexError_string
    | String pauli qubit_idx =>
        if Ascii.eqb pauli "X" then
          i <- int_ qubit_idx ;; ret (qubit_terms ++ [PauliX i])
        else if Ascii.eqb pauli "Y" then
          i <- int_ qubit_idx ;; ret (qubit_terms ++ [PauliY i])
        else if Ascii.eqb pauli "Z" then
          i <- int_ qubit_idx ;; ret (qubit_terms ++ [PauliZ i])
        else
          print "Invalid input." ;;; ret qubit_terms
    end.

Fixpoint token_loop (token : list string) (qubit_terms : list Operator)
  : Out (list Operator) :=
  match token with
  | [] => ret qubit_terms
  | term :: rest =>
      qubit_terms' <- token_step qubit_terms term ;;
      token_loop rest qubit_terms'
  end.

Definition pauli_token_to_operator (token : list string) : Out Operator :=
  qubit_terms <- token_loop token [] ;;
  full_term <- getitem qubit_terms 0 ;;
  ret (fold_left Matmul (skipn 1 qubit_terms) full_term).

(** ** [parse_hamiltonian_input] *)

(** The body of the loop [for line in input_data.split("S")]: the
    coefficient and the operator appended for this line.  The two lists
    are local, so a line that raises leaves nothing of them behind. *)
Definition parse_line (line : string) : Out (float * Operator) :=
  let line := strip line in
  let tokens := split " " line in
  sign <- getitem tokens 0 ;;
  value <- getitem tokens 1 ;;
  coeff <- float_ value ;;
  let coeff := if String.eqb sign "-" then float_mul_int coeff (-1) else coeff in
  let pauli := skipn 2 tokens in
  op <- pauli_token_to_operator pauli ;;
  ret (coeff, op).

Fixpoint parse_lines (lines : list string)
  (coeffs : list float) (pauli_terms : list Operator)
  : Out (list float * list Operator) :=
  match lines with
  | [] => ret (coeffs, pauli_terms)
  | line :: rest =>
      r <- parse_line line ;;
      parse_lines rest (coeffs ++ [fst r]) (pauli_terms ++ [snd r])
  end.

Definition parse_hamiltonian_input (input_data : string) : Out Hamiltonian :=
  r <- parse_lines (split "S" input_data) [] [] ;;
  qml_Hamiltonian (fst r) (snd r).

(** ** The eigensolver script *)

(** Computations that may raise, without output. *)
Definition bindR {A B} (r : result A) (k : A -> result B) : result B :=
  match r with
  | Return a => k a
  | Raise e => Raise e
  end.

(** [l[i] = v] on an array. *)
Fixpoint setitem {A} (l : list A) (i : nat) (v : A) : result (list A) :=
  match l, i with
  | [], _ => Raise IndexError_list
  | _ :: t, O => Return (v :: t)
  | x :: t, S i' => bindR (setitem t i' v) (fun t' => Return (x :: t'))
  end.

Definition overlap_weight : Z := 50.
Definition num_layers : nat := 2.
Definition num_iter : nat := 500.
Definition num_eigen : nat := 3.
Definition threshold : float :=
  Eval vm_compute in
    match py_float "1e-8" with Some x => x | None => S754_nan end.

Section Eigensolver.

(** The simulation library, as far as [find_excited_states] calls it.
    [Params] is the type of a parameter tensor; [Lib] is the state the
    library keeps between calls: the random generator behind
    [np.random.uniform] and the momentum accumulated by the optimizer. *)
Variables Params Lib : Type.

(** [len(H.wires)] *)
Variable num_wires : Hamiltonian -> nat.
(** [np.random.uniform(size=shape)] *)
Variable random_uniform : nat * nat * nat -> Lib -> Lib * Params.
(** [qml.ExpvalCost(variational_ansatz, H, dev1)(params)] *)
Variable energy : Hamiltonian -> Params -> result float.
(** the swap-test node [overlap(paramsX, paramsY)] on [2*num_qubits+1] wires *)
Variable overlap : nat -> Params -> Params -> result float.
(** [opt.step_and_cost(objective, params)] of [qml.MomentumOptimizer(0.1)] *)
Variable step_and_cost :
  (Params -> result float) -> Params -> Lib -> Lib * result (Params * float).
(** [str(x)] of a float *)
Variable str_float : float -> string.

(** Computations on the library's state that may raise. *)
Definition St (A : Type) : Type := Lib -> Lib * result A.
Definition retS {A} (a : A) : St A := fun lib => (lib, Return a).
Definition liftR {A} (r : result A) : St A := fun lib => (lib, r).
Definition bindS {A B} (m : St A) (k : A -> St B) : St B :=
  fun lib =>
    match m lib with
    | (lib', Return a) => k a lib'
    | (lib', Raise e) => (lib', Raise e)
    end.

(** [cost_fn(params, overlap_params)] *)
Fixpoint cost_loop (H : Hamiltonian) (params : Params)
  (overlap_params : list Params) (cost : float) : result float :=
  match overlap_params with
  | [] => Return cost
  | i :: rest =>
      bindR (overlap (num_wires H) params i) (fun o =>
      cost_loop H params rest
        (SFadd prec emax cost (float_mul_int o overlap_weight)))
  end.

Definition cost_fn (H : Hamiltonian) (params : Params)
  (overlap_params : list Params) : result float :=
  bindR (energy H params) (fun cost => cost_loop H params overlap_params cost).

(** The loop [for _ in range(num_iter)], [n] rounds of it being left. *)
Fixpoint optimise (n : nat) (H : Hamiltonian) (prev_params : list Params)
  (params : Params) : St Params :=
  match n with
  | O => retS params
  | S n' =>
      bindS (step_and_cost (fun x => cost_fn H x prev_params) params) (fun r =>
      let (params, prev_cost) := r in
      bindS (liftR (cost_fn H params prev_params)) (fun cost =>
      if SFltb (SFabs (SFsub prec emax cost prev_cost)) threshold
      then retS params
      else optimise n' H prev_params params))
  end.

(** The loop [for i in range(num_eigen)]. *)
Fixpoint eigen_loop (range : list nat) (H : Hamiltonian)
  (energies : list float) (prev_params : list Params) : St (list float) :=
  match range with
  | [] => retS energies
  | i :: rest =>
      bindS (fun lib => let (lib', p) :=
               random_uniform (num_layers, num_wires H, 3) lib in
               (lib', Return p)) (fun params =>
      bindS (optimise num_iter H prev_params params) (fun params =>
      bindS (liftR (energy H params)) (fun e =>
      bindS (liftR (setitem energies i e)) (fun energies =>
      eigen_loop rest H energies (prev_params ++ [params])))))
  end.

Definition find_excited_states (H : Hamiltonian) : St string :=
  bindS (eigen_loop (seq 0 num_eigen) H (repeat (S754_zero false) 3) [])
    (fun energies => retS (join "," (map str_float energies))).

(** The [__main__] block: the lines printed and the way the run ends,
    from the text read on standard input. *)
Definition main_vqe (stdin : string) (lib : Lib) : Out unit :=
  match parse_hamiltonian_input stdin with
  | (o, Raise e) => (o, Raise e)
  | (o, Return H) =>
      match find_excited_states H lib with
      | (_, Return lowest_three_energies) =>
          (o ++ [lowest_three_energies], Return tt)
      | (_, Raise e) => (o, Raise e)
      end
  end.

(** The three searches of [find_excited_states] one after the other,
    from the library state [lib] to [lib']: each starts from fresh random
    parameters, is penalised by the overlap with the parameters that the
    searches before it reached, and ends with the energy of the
    parameters it reached itself. *)
Definition three_searches (H : Hamiltonian) (lib lib' : Lib)
  (e0 e1 e2 : float) : Prop :=
  exists q0 q1 q2 p0 p1 p2 l1 l2 l3 l4 l5,
    random_uniform (num_layers, num_wires H, 3) lib = (l1, q0) /\
    optimise num_iter H [] q0 l1 = (l2, Return p0) /\
    energy H p0 = Return e0 /\
    random_uniform (num_layers, num_wires H, 3) l2 = (l3, q1) /\
    optimise num_iter H [p0] q1 l3 = (l4, Return p1) /\
    energy H p1 = Return e1 /\
    random_uniform (num_layers, num_wires H, 3) l4 = (l5, q2) /\
    optimise num_iter H [p0; p1] q2 l5 = (lib', Return p2) /\
    energy H p2 = Return e2.

End Eigensolver.

(** ** The rotation script *)

(** A gate applied by a quantum function, with its angle of type [A],
    and the recorded tape: the gates in order and the observable whose
    expectation value is returned. *)
Inductive gate (A : Type) : Type :=
| RY (phi : A) (wires : Z).
Arguments RY {A} phi wires.

Record tape (A : Type) : Type := mkTape
  { operations : list (gate A);
    expval : Operator }.
Arguments mkTape {A} operations expval.
Arguments operations {A} t.
Arguments expval {A} t.

(** The quantum function [simplecircuit(param)]. *)
Definition simplecircuit {A} (param : A) : tape A :=
  mkTape [RY param 0] (PauliX 0).

(** [simple_circuits_30(angle)]: the node is bound to a device of one
    wire, [qnode] being the library's evaluation of a tape on a device
    of so many wires. *)
Definition simple_circuits_30 {A B} (qnode : nat -> tape A -> B) (angle : A) : B :=
  let x_expectation := qnode 1%nat (simplecircuit angle) in
  x_expectation.

(** The Python values the driver tells apart. *)
Inductive pyval : Type :=
| PyFloat (x : float)
| NpTensor (data : list float)
| PyOther.

(** [t.item()] *)
Definition item (data : list float) : result pyval :=
  match data with
  | [x] => Return (PyFloat x)
  | _ => Raise ValueError_item
  end.

Section RotationScript.

Variable qnode : nat -> tape float -> result pyval.
Variable str_float : float -> string.

Definition main_rotation (stdin : string) : Out unit :=
  let angle_str := stdin in
  angle <- float_ angle_str ;;
  ans <- ([], simple_circuits_30 qnode angle) ;;
  ans <- match ans with
         | NpTensor data => ([], item data)
         | _ => ret ans
         end ;;
  match ans with
  | PyFloat x => print (str_float x)
  | _ => raise (TypeError "the simple_circuits_30 function needs to return a float")
  end.

End RotationScript.

(** ** The device of one wire, in exact arithmetic *)

(** Modelled from the spec: the simulation library is not part of the
    repository, so the device [default.qubit], the gate [RY], the Pauli
    observables and [expval] are missing.  The spec has the qubit start
    in [|0>], be rotated around the y-axis and measured as the
    expectation value of an observable; this is that computation for a
    tape on a single wire, on a state vector, with real numbers in place
    of binary64 ones. *)

Module DefaultQubit.

Local Open Scope R_scope.

Definition C : Type := (R * R)%type.
Definition RtoC (x : R) : C := (x, 0).
Definition Cadd (a b : C) : C := (fst a + fst b, snd a + snd b).
Definition Cmul (a b : C) : C :=
  (fst a * fst b - snd a * snd b, fst a * snd b + snd a * fst b).
Definition Cconj (a : C) : C := (fst a, - snd a).
Definition Ci : C := (0, 1).

(** Amplitudes of [|0>] and [|1>]. *)
Definition state : Type := (C * C)%type.
(** Rows of a 2x2 matrix. *)
Definition matrix : Type := ((C * C) * (C * C))%type.

Definition ket0 : state := (RtoC 1, RtoC 0).

Definition apply (m : matrix) (st : state) : state :=
  let '((m00, m01), (m10, m11)) := m in
  let (a, b) := st in
  (Cadd (Cmul m00 a) (Cmul m01 b), Cadd (Cmul m10 a) (Cmul m11 b)).

(** [<u|v>] *)
Definition inner (u v : state) : C :=
  Cadd (Cmul (Cconj (fst u)) (fst v)) (Cmul (Cconj (snd u)) (snd v)).

Definition RY_matrix (phi : R) : matrix :=
  let c := cos (phi / 2) in
  let s := sin (phi / 2) in
  ((RtoC c, RtoC (- s)), (RtoC s, RtoC c)).

Definition observable_matrix (o : Operator) : option matrix :=
  match o with
  | Identity 0 => Some ((RtoC 1, RtoC 0), (RtoC 0, RtoC 1))
  | PauliX 0 => Some ((RtoC 0, RtoC 1), (RtoC 1, RtoC 0))
  | PauliY 0 => Some ((RtoC 0, Cconj Ci), (Ci, RtoC 0))
  | PauliZ 0 => Some ((RtoC 1, RtoC 0), (RtoC 0, RtoC (- 1)))
  | _ => None
  end.

Definition apply_gate (st : option state) (g : gate R) : option state :=
  match st, g with
  | Some st, RY phi 0 => Some (apply (RY_matrix phi) st)
  | _, _ => None
  end.

(** Modelled from the spec: the evaluation of a node, missing with the
    simulation library.  The value is the expectation of the observable
    in the state the gates lead to from [|0>], and [None] when the tape
    does not fit a device of one wire. *)
Definition qnode (wires : nat) (t : tape R) : option R :=
  match wires, fold_left apply_gate (operations t) (Some ket0),
        observable_matrix (expval t) with
  | 1%nat, Some st, Some m => Some (fst (inner st (apply m st)))
  | _, _, _ => None
  end.

End DefaultQubit.

(** ** Notions of the specification *)

(** The floats 1.0 and -1.0. *)
Definition float_1 : float := Eval vm_compute in float_of_int 1.
Definition float_m1 : float := Eval vm_compute in float_of_int (-1).

(** The real number a float stands for, 0 for the infinities and NaN. *)
Definition float_to_R (x : float) : R :=
  match x with
  | S754_finite s m e =>
      ((if s then -1 else 1) * IZR (Zpos m) * powerRZ 2 e)%R
  | _ => 0%R
  end.

(** A malformed Pauli token: its first character is none of X, Y, Z and
    it is not exactly ["I"]. *)
Definition malformed (term : string) : bool :=
  negb (String.eqb term "I") &&
  match term with
  | String c _ => negb (Ascii.eqb c "X" || Ascii.eqb c "Y" || Ascii.eqb c "Z")
  | EmptyString => false
  end.

(** The tokens of a line, as [parse_hamiltonian_input] sees them. *)
Definition tokens_of (line : string) : list string := split " " (strip line).

(** The body of the loop of [parse_hamiltonian_input] on the tokens of a
    line. *)
Definition parse_tokens (tokens : list string) : Out (float * Operator) :=
  sign <- getitem tokens 0 ;;
  value <- getitem tokens 1 ;;
  coeff <- float_ value ;;
  let coeff := if String.eqb sign "-" then float_mul_int coeff (-1) else coeff in
  op <- pauli_token_to_operator (skipn 2 tokens) ;;
  ret (coeff, op).

(** The lines of the input parsed one after the other: what each
    contributes, in the order of the lines. *)
Fixpoint run_lines (lines : list string) : Out (list (float * Operator)) :=
  match lines with
  | [] => ret []
  | line :: rest =>
      r <- parse_line line ;;
      rs <- run_lines rest ;;
      ret (r :: rs)
  end.

(** The operator a Pauli letter stands for. *)
Definition pauli_operator (letter : ascii) (wires : Z) : option Operator :=
  if Ascii.eqb letter "X" then Some (PauliX wires)
  else if Ascii.eqb letter "Y" then Some (PauliY wires)
  else if Ascii.eqb letter "Z" then Some (PauliZ wires)
  else None.

(** A token made of a letter and the digits of an index. *)
Definition indexed_token (letter : ascii) (index : Decimal.uint) : string :=
  String letter (DecimalString.NilEmpty.string_of_uint index).

(** An index that [int] converts: at most [max_str_digits] digits. *)
Definition within_int_limit (index : Decimal.uint) : bool :=
  (Z.of_nat (Decimal.nb_digits index) <=? max_str_digits)%Z.

(** The value of a qubit index: a non-empty sequence of at most
    [max_str_digits] decimal digits, read as the Standard Library reads
    a numeral. *)
Definition index_of (digits : string) : option Z :=
  match digits with
  | EmptyString => None
  | _ =>
      if (Z.of_nat (String.length digits) <=? max_str_digits)%Z
      then option_map Z.of_uint (DecimalString.NilEmpty.uint_of_string digits)
      else None
  end.

(** The operator of a well-formed Pauli token: ["I"], or one of the
    letters X, Y, Z followed by a qubit index that [int] converts. *)
Definition token_operator (term : string) : option Operator :=
  if String.eqb term "I" then Some (Identity 0)
  else
    match term with
    | String letter digits =>
        match index_of digits with
        | Some wires => pauli_operator letter wires
        | None => None
        end
    | EmptyString => None
    end.




(** The sign bit of a float. *)
Definition is_negative (x : float) : bool :=
  match x with
  | S754_zero s | S754_infinity s | S754_finite s _ _ => s
  | S754_nan => false
  end.

(** A magnitude token that starts, after white space, with a minus sign. *)
Definition starts_with_minus (value : string) : bool :=
  fst (strip_sign (lstrip num_isspace value)).

(** The malformed Pauli tokens of an input, in order. *)
Definition malformed_tokens (input_data : string) : list string :=
  flat_map (fun line => filter malformed (skipn 2 (tokens_of line)))
           (split "S" input_data).

(** One diagnostic line for each token of a list. *)
Definition diagnostics (tokens : list string) : list string :=
  map (fun _ => "Invalid input.") tokens.

(** Three floats sorted from smallest to largest: none is less than the
    one before it. *)
Definition ascending3 (e0 e1 e2 : float) : bool :=
  negb (SFltb e1 e0) && negb (SFltb e2 e1).

(** The number of occurrences of a character in a string. *)
Fixpoint count_char (c : ascii) (s : string) : nat :=
  match s with
  | EmptyString => 0
  | String a s' => (if Ascii.eqb a c then 1 else 0) + count_char c s'
  end.

(** A Pauli token on which the loop of [pauli_token_to_operator] raises:
    the empty token, which two spaces in a row leave behind, and a letter
    X, Y or Z followed by something [int] rejects. *)
Definition raising_token (term : string) : bool :=
  match term with
  | EmptyString => true
  | String c d =>
      (Ascii.eqb c "X" || Ascii.eqb c "Y" || Ascii.eqb c "Z")
      && match py_int d with Some _ => false | None => true end
  end.

(** The exceptions of the parser: an index out of range, in a list or
    in a string, and the [ValueError] of [float] or of [int] on a string
    it rejects. *)
Definition parser_exn (e : exn) : Prop :=
  e = IndexError_list \/ e = IndexError_string \/
  (exists v, e = ValueError_float v /\ py_float v = None) \/
  (exists d, e = ValueError_int d /\ py_int d = None).

(** * Properties *)

Example float_one :
  py_float "1.0" = Some float_1 /\ py_float "-1.0" = Some float_m1.
Proof. vm_compute. split; reflexivity. Qed.

Example float_one_value : float_to_R float_1 = 1%R /\ float_to_R float_m1 = (-1)%R.
Proof.
  unfold float_to_R, float_1, float_m1, powerRZ.
  change (Pos.to_nat 52) with 52%nat. rewrite pow_IZR.
  change (2 ^ Z.of_nat 52)%Z with 4503599627370496%Z.
  split; field.
Qed.

Example float_tenth : py_float " 0.1" = Some (S754_finite false 7205759403792794 (-56)).
Proof. vm_compute. reflexivity. Qed.

(** ** The rotation circuit *)

Lemma simple_circuits_30_sin (angle : R) :
  simple_circuits_30 DefaultQubit.qnode angle = Some (sin angle).
Proof.
  unfold simple_circuits_30, simplecircuit, DefaultQubit.qnode. simpl.
  f_equal.
  replace (sin angle) with (sin (2 * (angle / 2)))%R by (f_equal; lra).
  rewrite sin_2a. ring.
Qed.

(** The spec's other value: a rotation by a quarter turn gives 1. *)
Lemma simple_circuits_30_quarter :
  simple_circuits_30 DefaultQubit.qnode (PI / 2)%R = Some 1%R.
Proof. rewrite simple_circuits_30_sin. now rewrite sin_PI2. Qed.

(** C8: for the rotation angle 0 [simple_circuits_30] returns exactly 0:
    the PauliX expectation value of a qubit in [|0>] rotated by RY(0). *)
Theorem simple_circuits_30_zero :
  simple_circuits_30 DefaultQubit.qnode 0%R = Some 0%R.
Proof.
  unfold simple_circuits_30, simplecircuit, DefaultQubit.qnode. simpl.
  replace (0 / 2)%R with 0%R by lra.
  rewrite cos_0, sin_0. f_equal. ring.
Qed.

(** ** The worked example of the parser *)

(** C1: parsing ["+ 1.0 Z0 S- 1.0 X0"] yields exactly two terms, with
    the coefficients 1.0 and -1.0 in that order, the first term being
    PauliZ on qubit 0 and the second PauliX on qubit 0; nothing is
    printed. *)
Theorem parse_two_terms :
  parse_hamiltonian_input "+ 1.0 Z0 S- 1.0 X0"
  = ([], Return (mkHamiltonian [float_1; float_m1] [PauliZ 0; PauliX 0])).
Proof. vm_compute. reflexivity. Qed.

(** ** The output monad *)

Lemma bind_Return {A B} (m : Out A) (k : A -> Out B) o a :
  m = (o, Return a) -> bind m k = (o ++ fst (k a), snd (k a)).
Proof. intros ->. unfold bind. destruct (k a); reflexivity. Qed.

Lemma bind_Raise {A B} (m : Out A) (k : A -> Out B) o e :
  m = (o, Raise e) -> bind m k = (o, Raise e).
Proof. intros ->. reflexivity. Qed.

Lemma bind_inv_Return {A B} (m : Out A) (k : A -> Out B) o b :
  bind m k = (o, Return b) ->
  exists o1 a o2, m = (o1, Return a) /\ k a = (o2, Return b) /\ o = o1 ++ o2.
Proof.
  unfold bind. destruct m as [o1 [a|e]].
  - destruct (k a) as [o2 r] eqn:E. intros [= <- ->]. eauto 6.
  - discriminate.
Qed.

Lemma bind_assoc {A B D} (m : Out A) (k : A -> Out B) (h : B -> Out D) :
  bind (bind m k) h = bind m (fun a => bind (k a) h).
Proof.
  unfold bind. destruct m as [o1 [a|e]]; [|reflexivity].
  destruct (k a) as [o2 [b|e]]; [|reflexivity].
  destruct (h b) as [o3 r]. now rewrite app_assoc.
Qed.

Lemma bind_ret_l {A B} (a : A) (k : A -> Out B) : bind (ret a) k = k a.
Proof. unfold bind, ret. destruct (k a); reflexivity. Qed.

(** ** The token loop *)

Lemma token_step_acc q term :
  token_step q term = omap (app q) (token_step [] term).
Proof.
  unfold token_step.
  destruct (String.eqb term "I"); [reflexivity|].
  destruct term as [|c d]; [reflexivity|].
  unfold int_.
  destruct (Ascii.eqb c "X"); [destruct (py_int d); reflexivity|].
  destruct (Ascii.eqb c "Y"); [destruct (py_int d); reflexivity|].
  destruct (Ascii.eqb c "Z"); [destruct (py_int d); reflexivity|].
  unfold omap. simpl. now rewrite app_nil_r.
Qed.

Lemma token_loop_acc token : forall q,
  token_loop token q = omap (app q) (token_loop token []).
Proof.
  induction token as [|term rest IH]; intros q; simpl.
  - unfold omap, ret. simpl. now rewrite app_nil_r.
  - rewrite (token_step_acc q). 
    destruct (token_step [] term) as [o [a|e]]; unfold omap; simpl; [|reflexivity].
    rewrite (IH (q ++ a)), (IH a).
    destruct (token_loop rest []) as [o' [b|e]]; unfold omap; simpl;
      [now rewrite app_assoc | reflexivity].
Qed.

Lemma token_loop_app pre post : forall q,
  token_loop (pre ++ post) q = bind (token_loop pre q) (token_loop post).
Proof.
  induction pre as [|t pre IH]; intros q.
  - symmetry. apply bind_ret_l.
  - cbn [app token_loop]. rewrite bind_assoc. unfold bind at 1 3.
    destruct (token_step q t) as [o [a|e]]; [|reflexivity].
    now rewrite IH.
Qed.

Lemma token_step_malformed q t :
  malformed t = true -> token_step q t = (["Invalid input."], Return q).
Proof.
  unfold malformed, token_step. intros H.
  apply andb_true_iff in H as [H1 H2].
  apply negb_true_iff in H1. rewrite H1.
  destruct t as [|c d]; [discriminate|].
  apply negb_true_iff in H2.
  apply orb_false_iff in H2 as [H2 HZ]. apply orb_false_iff in H2 as [HX HY].
  now rewrite HX, HY, HZ.
Qed.

(** A malformed token adds its diagnostic line and nothing else. *)
Lemma token_loop_malformed pre t post o1 q :
  malformed t = true ->
  token_loop pre [] = (o1, Return q) ->
  token_loop (pre ++ t :: post) []
  = (o1 ++ "Invalid input." :: fst (token_loop post q), snd (token_loop post q)).
Proof.
  intros H Hpre. rewrite token_loop_app.
  rewrite (bind_Return _ _ _ _ Hpre). cbn [token_loop].
  rewrite (bind_Return _ _ _ _ (token_step_malformed q t H)).
  reflexivity.
Qed.

Lemma pauli_token_malformed pre t post o op :
  malformed t = true ->
  pauli_token_to_operator (pre ++ post) = (o, Return op) ->
  exists o1 o2,
    o = o1 ++ o2 /\
    pauli_token_to_operator (pre ++ t :: post)
    = (o1 ++ "Invalid input." :: o2, Return op).
Proof.
  intros H. unfold pauli_token_to_operator. intros Hp.
  apply bind_inv_Return in Hp as (oa & qs & ob & Hloop & Hk & ->).
  rewrite token_loop_app in Hloop.
  apply bind_inv_Return in Hloop as (o1 & q & o2 & Hpre & Hpost & ->).
  exists o1, (o2 ++ ob). split; [now rewrite app_assoc|].
  pose proof (token_loop_malformed pre t post o1 q H Hpre) as Hl.
  rewrite Hpost in Hl. cbn [fst snd] in Hl.
  rewrite (bind_Return _ _ _ _ Hl), Hk. cbn [fst snd].
  now rewrite <- app_assoc.
Qed.

(** When every token is malformed the list of operators stays empty. *)
Lemma pauli_token_all_malformed token :
  forallb malformed token = true ->
  pauli_token_to_operator token
  = (repeat "Invalid input." (List.length token), Raise IndexError_list).
Proof.
  intros H. unfold pauli_token_to_operator.
  assert (Hl : token_loop token []
               = (repeat "Invalid input." (List.length token), Return [])).
  { induction token as [|t rest IH]; [reflexivity|].
    cbn [forallb] in H. apply andb_true_iff in H as [Ht Hrest].
    cbn [token_loop]. rewrite (bind_Return _ _ _ _ (token_step_malformed [] t Ht)).
    rewrite (IH Hrest). reflexivity. }
  rewrite (bind_Return _ _ _ _ Hl). cbn. now rewrite app_nil_r.
Qed.

(** ** The loop over the lines *)

Lemma parse_line_tokens line : parse_line line = parse_tokens (tokens_of line).
Proof. reflexivity. Qed.

Lemma parse_lines_run lines : forall cs ps,
  parse_lines lines cs ps
  = omap (fun rs => (cs ++ map fst rs, ps ++ map snd rs)) (run_lines lines).
Proof.
  induction lines as [|line rest IH]; intros cs ps; cbn [parse_lines run_lines].
  - unfold omap, ret. cbn. now rewrite !app_nil_r.
  - unfold bind at 1 2. destruct (parse_line line) as [o [r|e]]; [|reflexivity].
    rewrite IH. unfold omap, bind.
    destruct (run_lines rest) as [o' [rs|e]]; cbn; [|reflexivity].
    now rewrite <- !app_assoc, app_nil_r.
Qed.

Lemma run_lines_Forall2 lines : forall o rs,
  run_lines lines = (o, Return rs) ->
  Forall2 (fun line r => exists oi, parse_line line = (oi, Return r)) lines rs.
Proof.
  induction lines as [|line rest IH]; intros o rs; cbn [run_lines].
  - intros [= <- <-]. constructor.
  - intros H. apply bind_inv_Return in H as (o1 & r & o2 & Hl & H & ->).
    apply bind_inv_Return in H as (o3 & rs' & o4 & Hr & H & ->).
    injection H as <- <-. constructor; eauto.
Qed.

Lemma parse_hamiltonian_input_run input :
  parse_hamiltonian_input input
  = omap (fun rs => mkHamiltonian (map fst rs) (map snd rs))
         (run_lines (split "S" input)).
Proof.
  unfold parse_hamiltonian_input. rewrite parse_lines_run.
  unfold omap, bind, qml_Hamiltonian.
  destruct (run_lines (split "S" input)) as [o [rs|e]]; cbn; [|reflexivity].
  rewrite !length_map, Nat.eqb_refl. cbn. now rewrite app_nil_r.
Qed.

(** C3: when [parse_hamiltonian_input] succeeds, the coefficients and
    the Pauli terms of the result have equal length, one of each for
    every term of the input, and the i-th coefficient and the i-th Pauli
    term both come from the i-th term of the input. *)
Theorem coeffs_ops_aligned input o H :
  parse_hamiltonian_input input = (o, Return H) ->
  List.length (coeffs H) = List.length (ops H) /\
  List.length (coeffs H) = List.length (split "S" input) /\
  forall i line,
    nth_error (split "S" input) i = Some line ->
    exists oi c op,
      parse_line line = (oi, Return (c, op)) /\
      nth_error (coeffs H) i = Some c /\
      nth_error (ops H) i = Some op.
Proof.
  rewrite parse_hamiltonian_input_run. unfold omap.
  destruct (run_lines (split "S" input)) as [o' [rs|e]] eqn:E; cbn; [|discriminate].
  intros [= <- <-]. cbn [coeffs ops].
  apply run_lines_Forall2 in E.
  rewrite !length_map. split; [reflexivity|].
  split; [symmetry; eapply Forall2_length; eassumption|].
  induction E as [|line r ls rs' [oi Hr] E IH]; intros i l Hi.
  - destruct i; discriminate.
  - destruct i as [|i]; cbn in Hi.
    + injection Hi as <-. destruct r as [c op]. exists oi, c, op. now cbn.
    + cbn [map nth_error]. now apply IH.
Qed.

Lemma coeffs_ops_aligned_witness :
  exists oi c op,
    parse_line "- 1.0 X0" = (oi, Return (c, op)) /\
    nth_error [float_1; float_m1] 1 = Some c /\
    nth_error [PauliZ 0; PauliX 0] 1 = Some op.
Proof.
  exact (proj2 (proj2 (coeffs_ops_aligned "+ 1.0 Z0 S- 1.0 X0" [] _
                         (eq_refl : parse_hamiltonian_input "+ 1.0 Z0 S- 1.0 X0" = ([], Return (mkHamiltonian [float_1; float_m1] [PauliZ 0; PauliX 0])))))
           1%nat "- 1.0 X0" eq_refl).
Defined.

(** ** Malformed Pauli tokens *)

Lemma parse_tokens_malformed sign value pre t post o r :
  malformed t = true ->
  parse_tokens (sign :: value :: pre ++ post) = (o, Return r) ->
  exists o1 o2,
    o = o1 ++ o2 /\
    parse_tokens (sign :: value :: pre ++ t :: post)
    = (o1 ++ "Invalid input." :: o2, Return r).
Proof.
  intros Ht. unfold parse_tokens. cbn [getitem nth_error skipn].
  rewrite !bind_ret_l. unfold float_.
  destruct (py_float value) as [x|]; [|discriminate].
  rewrite !bind_ret_l. intros H.
  apply bind_inv_Return in H as (oa & op & ob & Hp & Hk & ->).
  destruct (pauli_token_malformed pre t post oa op Ht Hp) as (o1 & o2 & -> & Hp').
  exists o1, (o2 ++ ob). split; [now rewrite app_assoc|].
  rewrite (bind_Return _ _ _ _ Hp'), Hk. cbn [fst snd].
  now rewrite <- app_assoc.
Qed.

Lemma run_lines_replace x ls1 l l' ls2 : forall o rs,
  (forall ol r, parse_line l' = (ol, Return r) ->
     exists oa ob, ol = oa ++ ob /\ parse_line l = (oa ++ x :: ob, Return r)) ->
  run_lines (ls1 ++ l' :: ls2) = (o, Return rs) ->
  exists o1 o2,
    o = o1 ++ o2 /\ run_lines (ls1 ++ l :: ls2) = (o1 ++ x :: o2, Return rs).
Proof.
  induction ls1 as [|a ls1 IH]; intros o rs Hl; cbn [app run_lines]; intros H.
  - apply bind_inv_Return in H as (ol & r & o2 & Hl' & Hk & ->).
    destruct (Hl ol r Hl') as (oa & ob & -> & Hnew).
    exists oa, (ob ++ o2). split; [now rewrite app_assoc|].
    rewrite (bind_Return _ _ _ _ Hnew), Hk. cbn [fst snd].
    now rewrite <- app_assoc.
  - apply bind_inv_Return in H as (oa & r & o2 & Ha & Hk & ->).
    apply bind_inv_Return in Hk as (o3 & rs' & o4 & Hrest & Hret & ->).
    destruct (IH o3 rs' Hl Hrest) as (o1 & o2' & -> & Hnew).
    exists (oa ++ o1), (o2' ++ o4). split; [now rewrite !app_assoc|].
    rewrite (bind_Return _ _ _ _ Ha).
    rewrite (bind_Return _ _ _ _ Hnew), Hret. cbn [fst snd].
    now rewrite <- !app_assoc.
Qed.

Lemma parse_tokens_all_malformed sign value pauli x :
  py_float value = Some x ->
  forallb malformed pauli = true ->
  parse_tokens (sign :: value :: pauli)
  = (repeat "Invalid input." (List.length pauli), Raise IndexError_list).
Proof.
  intros Hx Hp. unfold parse_tokens. cbn [getitem nth_error skipn].
  rewrite !bind_ret_l. unfold float_. rewrite Hx, bind_ret_l.
  now rewrite (bind_Raise _ _ _ _ (pauli_token_all_malformed pauli Hp)).
Qed.

(** C2, as the code has it: a malformed Pauli token is reported with the
    line ["Invalid input."] and skipped.  When the input parses without
    the token, it parses with it, to the same Hamiltonian, and the only
    difference is the diagnostic line.  A term all of whose Pauli tokens
    are malformed is not parsed: each is reported and the term ends in
    an [IndexError]. *)
Theorem malformed_token_skipped :
  (forall input input' ls1 line line' ls2 sign value pre t post o H,
      malformed t = true ->
      split "S" input = ls1 ++ line :: ls2 ->
      tokens_of line = sign :: value :: pre ++ t :: post ->
      split "S" input' = ls1 ++ line' :: ls2 ->
      tokens_of line' = sign :: value :: pre ++ post ->
      parse_hamiltonian_input input' = (o, Return H) ->
      exists o1 o2,
        o = o1 ++ o2 /\
        parse_hamiltonian_input input = (o1 ++ "Invalid input." :: o2, Return H)) /\
  (forall line sign value pauli x,
      tokens_of line = sign :: value :: pauli ->
      py_float value = Some x ->
      forallb malformed pauli = true ->
      parse_line line
      = (repeat "Invalid input." (List.length pauli), Raise IndexError_list)).
Proof.
  split.
  - intros input input' ls1 line line' ls2 sign value pre t post o H
      Ht Hs Htok Hs' Htok'.
    rewrite !parse_hamiltonian_input_run, Hs, Hs'. unfold omap.
    destruct (run_lines (ls1 ++ line' :: ls2)) as [o' [rs|e]] eqn:E; cbn [fst snd];
      [|discriminate].
    intros [= <- <-].
    destruct (run_lines_replace "Invalid input." ls1 line line' ls2 o' rs)
      as (o1 & o2 & -> & Hnew); [|exact E|].
    + intros ol r. rewrite !parse_line_tokens, Htok, Htok'.
      now apply parse_tokens_malformed.
    + exists o1, o2. split; [reflexivity|]. now rewrite Hnew.
  - intros line sign value pauli x Htok Hx Hp.
    rewrite parse_line_tokens, Htok. now apply parse_tokens_all_malformed with x.
Qed.

Lemma malformed_token_skipped_witness :
  (exists o1 o2,
      [] = o1 ++ o2 /\
      parse_hamiltonian_input "+ 1.0 Z0 Q1S- 1.0 X0"
      = (o1 ++ "Invalid input." :: o2,
         Return (mkHamiltonian [float_1; float_m1] [PauliZ 0; PauliX 0]))) /\
  parse_line "+ 1.0 Q0 I7"
  = (repeat "Invalid input." (List.length ["Q0"; "I7"]), Raise IndexError_list).
Proof.
  split.
  - apply (proj1 malformed_token_skipped
             "+ 1.0 Z0 Q1S- 1.0 X0" "+ 1.0 Z0S- 1.0 X0"
             [] "+ 1.0 Z0 Q1" "+ 1.0 Z0" ["- 1.0 X0"] "+" "1.0" ["Z0"] "Q1" []);
      reflexivity.
  - apply (proj2 malformed_token_skipped "+ 1.0 Q0 I7" "+" "1.0" ["Q0"; "I7"] float_1);
      reflexivity.
Defined.

(** C2 as stated fails: a term whose only Pauli token is malformed is
    not parsed; the token is reported and the parse ends in an
    [IndexError]. *)
Lemma malformed_token_fails :
  malformed "Q0" = true /\
  tokens_of "+ 1.0 Q0" = ["+"; "1.0"; "Q0"] /\
  parse_hamiltonian_input "+ 1.0 Q0" = (["Invalid input."], Raise IndexError_list).
Proof. vm_compute. repeat split. Qed.

(** ** Qubit indices *)

(** On the digits of [u], [scan_int] is Horner's rule, which is also
    what the Standard Library takes as the value of a decimal numeral. *)
Lemma scan_int_uint (u : Decimal.uint) : forall acc n,
  scan_int (DecimalString.NilEmpty.string_of_uint u) false acc n
  = Some ((acc * 10 ^ Z.of_N (DecimalPos.Unsigned.usize u)
           + Z.of_N (DecimalPos.Unsigned.of_lu (Decimal.rev u)))%Z,
          (n + Z.of_nat (Decimal.nb_digits u))%Z, EmptyString).
Proof.
  induction u; intros acc n;
    [ cbn; f_equal; f_equal; f_equal; ring | .. ];
    cbn [DecimalString.NilEmpty.string_of_uint scan_int];
    change (is_digit _) with true; cbv iota;
    unfold Decimal.rev; cbn [Decimal.revapp];
    rewrite DecimalPos.Unsigned.of_lu_revapp;
    rewrite IHu;
    (f_equal; f_equal; f_equal;
    [ cbn [DecimalPos.Unsigned.usize DecimalPos.Unsigned.of_lu];
      rewrite N2Z.inj_add, N2Z.inj_mul, N2Z.inj_pow, N2Z.inj_succ;
      rewrite Z.pow_succ_r by apply N2Z.is_nonneg;
      unfold digit_val;
      repeat match goal with
        | |- context [Z.of_N ?n] =>
            lazymatch n with
            | context [u] => fail
            | _ => let v := eval vm_compute in (Z.of_N n) in
                   change (Z.of_N n) with v
            end
        end;
      ring
    | cbn [Decimal.nb_digits]; lia ]).
Qed.

Lemma digits_head (u : Decimal.uint) :
  u <> Decimal.Nil ->
  exists c s,
    DecimalString.NilEmpty.string_of_uint u = String c s /\
    is_digit c = true /\ num_isspace c = false /\
    strip_sign (String c s) = (false, String c s).
Proof.
  intros Hu. destruct u; [contradiction | ..];
    cbn [DecimalString.NilEmpty.string_of_uint]; eexists _, _; repeat split.
Qed.

(** [int] on a non-empty sequence of digits: its value as a numeral when
    the digits are not too many, and an error otherwise. *)
Lemma py_int_uint (u : Decimal.uint) :
  u <> Decimal.Nil ->
  py_int (DecimalString.NilEmpty.string_of_uint u)
  = if within_int_limit u then Some (Z.of_uint u) else None.
Proof.
  intros Hu. unfold Z.of_uint. rewrite DecimalPos.Unsigned.of_uint_alt.
  unfold py_int, within_int_limit.
  destruct (digits_head u Hu) as (c & s & Hs & Hd & Hw & Hsign).
  pose proof (scan_int_uint u 0 0) as Hscan. rewrite Hs in Hscan |- *.
  cbn [lstrip]. rewrite Hw, Hsign, Hd, Hscan. cbn [Z.add].
  rewrite Z.ltb_antisym.
  destruct (Z.of_nat (Decimal.nb_digits u) <=? max_str_digits)%Z; reflexivity.
Qed.

Lemma indexed_token_not_I letter index :
  index <> Decimal.Nil -> String.eqb (indexed_token letter index) "I" = false.
Proof.
  intros Hi. unfold indexed_token. cbn [String.eqb].
  destruct (Ascii.eqb letter "I"); [|reflexivity].
  destruct index; [contradiction | ..]; reflexivity.
Qed.

Lemma token_step_indexed letter index op q :
  index <> Decimal.Nil ->
  pauli_operator letter (Z.of_uint index) = Some op ->
  token_step q (indexed_token letter index)
  = if within_int_limit index then ([], Return (q ++ [op]))
    else ([], Raise (ValueError_int (DecimalString.NilEmpty.string_of_uint index))).
Proof.
  intros Hi Hop. unfold token_step. rewrite (indexed_token_not_I _ _ Hi).
  unfold indexed_token, int_. rewrite (py_int_uint index Hi).
  unfold pauli_operator in Hop.
  destruct (within_int_limit index);
    (destruct (Ascii.eqb letter "X"); [injection Hop as <-; reflexivity|]);
    (destruct (Ascii.eqb letter "Y"); [injection Hop as <-; reflexivity|]);
    (destruct (Ascii.eqb letter "Z"); [injection Hop as <-; reflexivity|]);
    discriminate.
Qed.

(** C4, as the code has it: a token made of the letter X, Y or Z and a
    non-empty sequence of decimal digits adds the operator of that letter
    on the qubit of that index, as long as the digits are no more than
    the 4300 that [int] converts, and raises the [ValueError] of [int]
    beyond; the identity is the token ["I"] alone and acts on qubit 0;
    and the letter I followed by an index is reported as invalid and
    adds nothing. *)
Theorem pauli_token_indexed (letter : ascii) (index : Decimal.uint) op qubit_terms :
  index <> Decimal.Nil ->
  pauli_operator letter (Z.of_uint index) = Some op ->
  token_step qubit_terms (indexed_token letter index)
    = (if within_int_limit index then ([], Return (qubit_terms ++ [op]))
       else ([], Raise (ValueError_int
                          (DecimalString.NilEmpty.string_of_uint index)))) /\
  pauli_token_to_operator [indexed_token letter index]
    = (if within_int_limit index then ([], Return op)
       else ([], Raise (ValueError_int
                          (DecimalString.NilEmpty.string_of_uint index)))) /\
  token_step qubit_terms "I" = ([], Return (qubit_terms ++ [Identity 0])) /\
  token_step qubit_terms (indexed_token "I" index)
    = (["Invalid input."], Return qubit_terms).
Proof.
  intros Hi Hop.
  split; [now apply token_step_indexed|]. split; [|split].
  - unfold pauli_token_to_operator. cbn [token_loop].
    pose proof (token_step_indexed letter index op [] Hi Hop) as Hstep.
    destruct (within_int_limit index).
    + rewrite (bind_Return _ _ _ _ Hstep). reflexivity.
    + rewrite (bind_Raise _ _ _ _ Hstep). reflexivity.
  - reflexivity.
  - apply token_step_malformed. unfold malformed.
    rewrite (indexed_token_not_I _ _ Hi). reflexivity.
Qed.

Lemma pauli_token_indexed_witness :
  token_step [PauliX 1] "Z42" = ([], Return ([PauliX 1] ++ [PauliZ 42])) /\
  pauli_token_to_operator ["Z42"] = ([], Return (PauliZ 42)) /\
  token_step [PauliX 1] "I" = ([], Return ([PauliX 1] ++ [Identity 0])) /\
  token_step [PauliX 1] "I42" = (["Invalid input."], Return [PauliX 1]).
Proof.
  apply (pauli_token_indexed "Z" (Decimal.D4 (Decimal.D2 Decimal.Nil))).
  - discriminate.
  - reflexivity.
Defined.

(** An index of 4301 digits is one too many for [int]. *)
Example index_too_long :
  within_int_limit (Nat.iter 4301 Decimal.D1 Decimal.Nil) = false /\
  exists e,
    pauli_token_to_operator
      [indexed_token "X" (Nat.iter 4301 Decimal.D1 Decimal.Nil)]
    = ([], Raise (ValueError_int e)).
Proof.
  split; [vm_compute; reflexivity|].
  eexists. vm_compute. reflexivity.
Qed.

(** C4 as stated fails on the identity: the token ["I3"] does not give
    the identity on qubit 3, it is reported as invalid and dropped, so a
    term made of it alone is not parsed, and next to another token it
    leaves no trace in the operator. *)
Lemma identity_with_index_dropped :
  pauli_token_to_operator ["I3"] = (["Invalid input."], Raise IndexError_list) /\
  pauli_token_to_operator ["Z1"; "I3"] = (["Invalid input."], Return (PauliZ 1)).
Proof. vm_compute. split; reflexivity. Qed.

(** ** Every float is a binary64 number

    What [float] returns, and so every coefficient, is a valid binary64
    value: the roundings of [binary_round] and of [SFdiv] end on a
    canonical mantissa and exponent. *)

Lemma fexp_mono a b : (a <= b)%Z -> (fexp prec emax a <= fexp prec emax b)%Z.
Proof. unfold fexp, emin, prec, emax. lia. Qed.

Lemma fexp_ge_emin a : (emin prec emax <= fexp prec emax a)%Z.
Proof. unfold fexp. lia. Qed.

Lemma fexp_gt_emin a : (emin prec emax < fexp prec emax a)%Z -> fexp prec emax a = (a - prec)%Z.
Proof. unfold fexp. lia. Qed.

Lemma digits2_pos_size p : digits2_pos p = Pos.size p.
Proof. induction p; cbn; now rewrite ?IHp. Qed.

Lemma Zdigits2_log2 m : (0 < m)%Z -> Zdigits2 m = (Z.log2 m + 1)%Z.
Proof.
  destruct m as [|p|p]; try lia. intros _. cbn [Zdigits2].
  rewrite digits2_pos_size. destruct p; cbn; lia.
Qed.

Lemma Zdigits2_nonneg m : (0 <= m)%Z -> (0 <= Zdigits2 m)%Z.
Proof. destruct m; cbn; lia. Qed.

Lemma Zdigits2_mono a b : (0 <= a <= b)%Z -> (Zdigits2 a <= Zdigits2 b)%Z.
Proof.
  intros [Ha Hab]. destruct (Z.eq_dec a 0) as [->|Hn].
  - cbn. now apply Zdigits2_nonneg.
  - rewrite !Zdigits2_log2 by lia. pose proof (Z.log2_le_mono a b Hab). lia.
Qed.

Lemma Zdigits2_bounds m : (0 < m)%Z -> (2 ^ (Zdigits2 m - 1) <= m < 2 ^ Zdigits2 m)%Z.
Proof.
  intros Hm. rewrite Zdigits2_log2 by lia.
  replace (Z.log2 m + 1 - 1)%Z with (Z.log2 m) by lia.
  pose proof (Z.log2_spec m Hm). replace (Z.log2 m + 1)%Z with (Z.succ (Z.log2 m)) by lia. lia.
Qed.

Lemma Zdigits2_ge m k : (0 <= k)%Z -> (2 ^ k <= m)%Z -> (k + 1 <= Zdigits2 m)%Z.
Proof.
  intros Hk Hm. assert (0 < m)%Z by (pose proof (Z.pow_pos_nonneg 2 k); lia).
  rewrite Zdigits2_log2 by lia.
  pose proof (Z.log2_le_pow2 m k H). lia.
Qed.

Lemma shr_1_m mrs : (0 <= shr_m mrs)%Z -> shr_m (shr_1 mrs) = Z.div2 (shr_m mrs).
Proof.
  destruct mrs as [m r s]. cbn [shr_m]. intros Hm.
  destruct m as [|p|p]; [reflexivity| |lia]. destruct p; reflexivity.
Qed.

Lemma iter_pos_shr_m p : forall mrs,
  (0 <= shr_m mrs)%Z ->
  shr_m (SpecFloat.iter_pos shr_1 p mrs) = Z.shiftr (shr_m mrs) (Z.pos p).
Proof.
  induction p as [p IH|p IH|]; intros mrs Hm; cbn [SpecFloat.iter_pos].
  - assert (H1 : (0 <= shr_m (shr_1 mrs))%Z).
    { rewrite shr_1_m by assumption. apply Z.div2_nonneg. assumption. }
    assert (H2 : (0 <= shr_m (SpecFloat.iter_pos shr_1 p (shr_1 mrs)))%Z).
    { rewrite IH by assumption. apply Z.shiftr_nonneg. assumption. }
    rewrite IH, IH, shr_1_m by assumption.
    rewrite Z.div2_spec, !Z.shiftr_shiftr by lia. f_equal. lia.
  - assert (H2 : (0 <= shr_m (SpecFloat.iter_pos shr_1 p mrs))%Z).
    { rewrite IH by assumption. apply Z.shiftr_nonneg. assumption. }
    rewrite IH, IH by assumption. rewrite Z.shiftr_shiftr by lia. f_equal. lia.
  - rewrite shr_1_m by assumption. now rewrite Z.div2_spec.
Qed.

Lemma shr_record_of_loc_m m l : shr_m (shr_record_of_loc m l) = m.
Proof. destruct l as [|[]]; reflexivity. Qed.

Lemma round_nearest_even_ge m l : (m <= round_nearest_even m l)%Z.
Proof. destruct l as [|[]]; cbn; try lia. destruct (Z.even m); lia. Qed.

(** What one shift to the exponent of the format leaves. *)
Lemma shr_fexp_spec m e l mrs e' :
  (0 <= m)%Z ->
  (e <= fexp prec emax (Zdigits2 m + e))%Z ->
  shr_fexp prec emax m e l = (mrs, e') ->
  (0 <= shr_m mrs)%Z /\
  e' = fexp prec emax (Zdigits2 m + e) /\
  (e' <= fexp prec emax (Zdigits2 (shr_m mrs) + e'))%Z /\
  ((0 < shr_m mrs)%Z -> fexp prec emax (Zdigits2 (shr_m mrs) + e') = e').
Proof.
  intros Hm He. unfold shr_fexp, shr.
  destruct (fexp prec emax (Zdigits2 m + e) - e)%Z as [|n|n] eqn:En; try lia.
  - intros [= <- <-]. rewrite shr_record_of_loc_m.
    assert (e = fexp prec emax (Zdigits2 m + e)) by lia.
    repeat split; try lia.
  - intros [= <- <-]. rewrite iter_pos_shr_m by (rewrite shr_record_of_loc_m; lia).
    rewrite shr_record_of_loc_m.
    assert (Hs : (0 <= Z.shiftr m (Z.pos n))%Z) by (apply Z.shiftr_nonneg; lia).
    split; [exact Hs|]. split; [lia|].
    destruct (Z.eq_dec (Z.shiftr m (Z.pos n)) 0) as [Hz|Hnz].
    + rewrite Hz. split; [|lia].
      assert (Hd : (Zdigits2 m <= Z.pos n)%Z).
      { destruct (Z.eq_dec m 0) as [->|Hm0]; [cbn; lia|].
        apply Z.shiftr_eq_0_iff in Hz as [->|[_ Hl]]; [cbn; lia|].
        rewrite Zdigits2_log2 by lia. lia. }
      assert (Hemin : (e + Z.pos n)%Z = emin prec emax).
      { pose proof (fexp_ge_emin (Zdigits2 m + e)).
        destruct (Z.eq_dec (fexp prec emax (Zdigits2 m + e)) (emin prec emax)); [lia|].
        rewrite fexp_gt_emin in En by lia. unfold prec in *. lia. }
      rewrite Hemin. apply fexp_ge_emin.
    + assert (Hd : Zdigits2 (Z.shiftr m (Z.pos n)) = (Zdigits2 m - Z.pos n)%Z).
      { assert (0 < m)%Z by (destruct (Z.eq_dec m 0) as [->|]; [rewrite Z.shiftr_0_l in Hnz|]; lia).
        rewrite !Zdigits2_log2 by lia.
        rewrite Z.log2_shiftr by lia.
        assert (Z.pos n <= Z.log2 m)%Z.
        { destruct (Z_le_gt_dec (Z.pos n) (Z.log2 m)); [assumption|].
          exfalso. apply Hnz. apply Z.shiftr_eq_0; lia. }
        lia. }
      rewrite Hd.
      replace (Zdigits2 m - Z.pos n + (e + Z.pos n))%Z with (Zdigits2 m + e)%Z by lia.
      split; [lia|]. intros _. lia.
Qed.

Lemma binary_round_aux_valid s m e l :
  (0 <= m)%Z ->
  (e <= fexp prec emax (Zdigits2 m + e))%Z ->
  valid_binary prec emax (binary_round_aux prec emax s m e l) = true.
Proof.
  intros Hm He. unfold binary_round_aux.
  destruct (shr_fexp prec emax m e l) as [mrs' e'] eqn:E1.
  destruct (shr_fexp_spec _ _ _ _ _ Hm He E1) as (Hm' & _ & He' & _).
  set (m1 := round_nearest_even (shr_m mrs') (loc_of_shr_record mrs')).
  assert (Hm1 : (shr_m mrs' <= m1)%Z) by apply round_nearest_even_ge.
  assert (He1 : (e' <= fexp prec emax (Zdigits2 m1 + e'))%Z).
  { eapply Z.le_trans; [exact He'|]. apply fexp_mono.
    pose proof (Zdigits2_mono (shr_m mrs') m1). lia. }
  destruct (shr_fexp prec emax m1 e' loc_Exact) as [mrs'' e''] eqn:E2.
  destruct (shr_fexp_spec _ _ _ _ _ (Z.le_trans _ _ _ Hm' Hm1) He1 E2) as (Hm'' & _ & _ & Hc).
  destruct (shr_m mrs'') as [|p|p] eqn:Ep; [reflexivity| |reflexivity].
  destruct (e'' <=? emax - prec)%Z eqn:Eb; [|reflexivity].
  cbn [valid_binary]. unfold SpecFloat.bounded, SpecFloat.canonical_mantissa.
  rewrite Eb, andb_true_r. apply Z.eqb_eq. apply Hc. lia.
Qed.

Lemma digits2_pos_iter_xO d : forall p,
  Z.pos (digits2_pos (Pos.iter xO p d)) = (Z.pos (digits2_pos p) + Z.pos d)%Z.
Proof.
  induction d as [|d IH] using Pos.peano_ind; intros p.
  - cbn. lia.
  - rewrite Pos.iter_succ. cbn [digits2_pos]. rewrite Pos2Z.inj_succ, IH. lia.
Qed.

Lemma binary_round_valid s m e :
  valid_binary prec emax (binary_round prec emax s m e) = true.
Proof.
  unfold binary_round.
  remember (fexp prec emax (Z.pos (digits2_pos m) + e)) as F eqn:HF.
  destruct (shl_align m e F) as [mz ez] eqn:E.
  apply binary_round_aux_valid; [lia|].
  unfold shl_align in E.
  destruct (F - e)%Z as [|d|d] eqn:Ed; injection E as <- <-; cbn [Zdigits2].
  - rewrite <- HF. lia.
  - rewrite <- HF. lia.
  - rewrite digits2_pos_iter_xO.
    replace (Z.pos (digits2_pos m) + Z.pos d + F)%Z
      with (Z.pos (digits2_pos m) + e)%Z by lia.
    rewrite <- HF. lia.
Qed.

Lemma SFdiv_finite_valid sx mx ex sy my ey :
  valid_binary prec emax
    (SFdiv prec emax (S754_finite sx mx ex) (S754_finite sy my ey)) = true.
Proof.
  cbn [SFdiv].
  destruct (SFdiv_core_binary prec emax (Z.pos mx) ex (Z.pos my) ey)
    as [[q e'] l] eqn:E.
  unfold SFdiv_core_binary in E.
  set (d1 := Zdigits2 (Z.pos mx)) in *. set (d2 := Zdigits2 (Z.pos my)) in *.
  set (D := (d1 + ex - (d2 + ey))%Z) in *.
  set (e0 := Z.min (fexp prec emax D) (ex - ey)) in *.
  set (s := (ex - ey - e0)%Z) in *.
  set (m' := match s with
             | Z.pos _ => Z.shiftl (Z.pos mx) s
             | 0%Z => Z.pos mx
             | Z.neg _ => 0%Z
             end) in *.
  assert (Hs : (0 <= s)%Z) by (unfold s, e0; lia).
  assert (Hm' : m' = (Z.pos mx * 2 ^ s)%Z).
  { unfold m'. destruct s as [|p|p] eqn:Es; [cbn; lia| |lia].
    now rewrite Z.shiftl_mul_pow2 by lia. }
  pose proof (Z.div_eucl_eq m' (Z.pos my) ltac:(lia)) as Hq.
  pose proof (Z.mod_pos_bound m' (Z.pos my) ltac:(lia)) as Hr.
  unfold Z.modulo in Hr.
  destruct (Z.div_eucl m' (Z.pos my)) as [q0 r0] eqn:Edm.
  injection E as <- <- <-.
  assert (H2s : (0 < 2 ^ s)%Z) by (apply Z.pow_pos_nonneg; lia).
  assert (Hq0 : (0 <= q0)%Z) by nia.
  apply binary_round_aux_valid; [exact Hq0|].
  pose proof (fexp_ge_emin (Zdigits2 q0 + e0)) as Hge.
  destruct (Z_le_gt_dec e0 (emin prec emax)) as [Hle|Hgt]; [lia|].
  assert (HfD : fexp prec emax D = (D - prec)%Z).
  { apply fexp_gt_emin. unfold e0 in Hgt. lia. }
  assert (He0 : (e0 <= D - prec)%Z) by (unfold e0; lia).
  assert (Hk : (0 <= d1 - 1 + s - d2)%Z) by (unfold s, D, prec in *; lia).
  pose proof (Zdigits2_bounds (Z.pos mx) ltac:(lia)) as [Hb1 _].
  pose proof (Zdigits2_bounds (Z.pos my) ltac:(lia)) as [_ Hb2].
  fold d1 in Hb1. fold d2 in Hb2.
  assert (Hd1 : (1 <= d1)%Z) by (unfold d1; cbn; lia).
  assert (Hd2 : (1 <= d2)%Z) by (unfold d2; cbn; lia).
  assert (Hqge : (2 ^ (d1 - 1 + s - d2) <= q0)%Z).
  { assert (Hpow : (2 ^ (d1 - 1) * 2 ^ s = 2 ^ (d1 - 1 + s - d2) * 2 ^ d2)%Z).
    { rewrite <- !Z.pow_add_r by lia. f_equal. lia. }
    assert (0 < 2 ^ (d1 - 1 + s - d2))%Z by (apply Z.pow_pos_nonneg; lia).
    assert (0 < 2 ^ d2)%Z by (apply Z.pow_pos_nonneg; lia).
    assert (Hlow : (2 ^ (d1 - 1 + s - d2) * 2 ^ d2 <= m')%Z) by (rewrite Hm'; nia).
    destruct (Z_le_gt_dec (2 ^ (d1 - 1 + s - d2)) q0) as [|Hlt]; [assumption|].
    exfalso.
    assert (q0 + 1 <= 2 ^ (d1 - 1 + s - d2))%Z by lia.
    assert (m' < Z.pos my * (q0 + 1))%Z by lia.
    assert (Z.pos my * (q0 + 1) <= Z.pos my * 2 ^ (d1 - 1 + s - d2))%Z by nia.
    assert (Z.pos my * 2 ^ (d1 - 1 + s - d2) < 2 ^ d2 * 2 ^ (d1 - 1 + s - d2))%Z by nia.
    lia. }
  pose proof (Zdigits2_ge q0 _ Hk Hqge) as Hdq.
  eapply Z.le_trans; [|apply fexp_mono with (a := D)].
  - unfold e0. lia.
  - unfold D, s in *. lia.
Qed.

Lemma round_decimal_valid neg m e :
  valid_binary prec emax (round_decimal neg m e) = true.
Proof.
  unfold round_decimal.
  destruct (0 <=? e)%Z.
  - destruct (m * 10 ^ e)%Z; try reflexivity. apply binary_round_valid.
  - destruct m; try reflexivity. destruct (10 ^ (- e))%Z; try reflexivity.
    apply SFdiv_finite_valid.
Qed.

Lemma py_float_valid value x :
  py_float value = Some x -> valid_binary prec emax x = true.
Proof.
  unfold py_float.
  destruct (rstrip num_isspace (lstrip num_isspace value)) as [|c r];
    [discriminate|].
  destruct (remove_underscores (String c r) "000") as [t|]; [|discriminate].
  unfold parse_decimal, parse_inf_or_nan.
  destruct (strip_sign t) as [neg s1].
  destruct (take_digits s1 0 0) as [[ip ni] s2].
  destruct (match s2 with
            | String "." s2' => let '(v, n, r0) := take_digits s2' ip 0 in (v, n, r0)
            | _ => (ip, 0%Z, s2)
            end) as [[m nf] s3].
  destruct ((ni + nf =? 0)%Z).
  - destruct (_ || _); [now intros [= <-]|].
    destruct (String.eqb _ _); [now intros [= <-]|discriminate].
  - destruct (take_exponent s3) as [ex [|a b]].
    + intros [= <-]. apply round_decimal_valid.
    + destruct (_ || _); [now intros [= <-]|].
      destruct (String.eqb _ _); [now intros [= <-]|discriminate].
Qed.

(** On a valid binary64 value the product with the float -1.0 is the
    value with its sign flipped. *)
Lemma SFmul_minus_one x :
  valid_binary prec emax x = true ->
  SFmul prec emax x (S754_finite true 4503599627370496 (-52)) = SFopp x.
Proof.
  destruct x as [s|s| |s m e]; cbn [valid_binary SFmul SFopp]; intros Hv;
    try (destruct s; reflexivity); try reflexivity.
  unfold SpecFloat.bounded, SpecFloat.canonical_mantissa in Hv.
  apply andb_true_iff in Hv as [Hc Hb]. apply Z.eqb_eq in Hc.
  replace (xorb s true) with (negb s) by (destruct s; reflexivity).
  rewrite Pos.mul_comm. cbn [Pos.mul].
  unfold binary_round_aux.
  match goal with |- context [shr_fexp prec emax (Z.pos ?P) ?E loc_Exact] =>
    destruct (shr_fexp prec emax (Z.pos P) E loc_Exact) as [mrs e1] eqn:E1;
    assert (H1 : (mrs, e1) = ({| shr_m := Z.pos m; shr_r := false; shr_s := false |}, e))
  end.
  { rewrite <- E1. unfold shr_fexp. cbn [Zdigits2 digits2_pos].
    rewrite !Pos2Z.inj_succ.
    match goal with |- context [fexp prec emax ?a] =>
      replace a with (Z.pos (digits2_pos m) + e)%Z by lia end.
    rewrite Hc. replace (e - (e + -52))%Z with 52%Z by lia.
    unfold shr. cbn. f_equal. lia. }
  injection H1 as -> ->.
  cbn [shr_m loc_of_shr_record round_nearest_even shr_r shr_s].
  unfold shr_fexp. cbn [Zdigits2]. rewrite Hc, Z.sub_diag.
  cbn [shr shr_record_of_loc shr_m]. now rewrite Hb.
Qed.

(** The coefficient of a term with the sign ["-"]: what [float] read,
    with its sign flipped. *)
Lemma coefficient_negated value x :
  py_float value = Some x -> float_mul_int x (-1) = SFopp x.
Proof.
  intros Hx. unfold float_mul_int.
  change (float_of_int (-1)) with (S754_finite true 4503599627370496 (-52)).
  apply SFmul_minus_one. exact (py_float_valid value x Hx).
Qed.

(** ** Well-formed input *)

Lemma string_of_uint_length (u : Decimal.uint) :
  String.length (DecimalString.NilEmpty.string_of_uint u) = Decimal.nb_digits u.
Proof. induction u; cbn; now rewrite ?IHu. Qed.

Lemma index_of_uint digits wires :
  index_of digits = Some wires ->
  exists u, u <> Decimal.Nil /\
            within_int_limit u = true /\
            DecimalString.NilEmpty.string_of_uint u = digits /\
            wires = Z.of_uint u.
Proof.
  unfold index_of, within_int_limit. intros H.
  destruct digits as [|c d] eqn:Ed; [discriminate|]. rewrite <- Ed in *.
  destruct (Z.of_nat (String.length digits) <=? max_str_digits)%Z eqn:El;
    [|discriminate].
  destruct (DecimalString.NilEmpty.uint_of_string digits) as [u|] eqn:Eu;
    [|discriminate].
  apply DecimalString.NilEmpty.sus in Eu. exists u.
  injection H as <-. rewrite <- Eu, string_of_uint_length in El.
  repeat split; try assumption.
  intros ->. cbn in Eu. congruence.
Qed.

Lemma token_operator_step term op q :
  token_operator term = Some op ->
  token_step q term = ([], Return (q ++ [op])).
Proof.
  unfold token_operator.
  destruct (String.eqb term "I") eqn:EI.
  - intros [= <-]. unfold token_step. now rewrite EI.
  - destruct term as [|letter digits]; [discriminate|].
    destruct (index_of digits) as [wires|] eqn:Ei; [|discriminate].
    apply index_of_uint in Ei as (u & Hu & Hl & <- & ->).
    intros Hop. pose proof (token_step_indexed letter u op q Hu Hop) as Hstep.
    now rewrite Hl in Hstep.
Qed.






(** ** The sign of a coefficient *)

Lemma binary_round_aux_nonneg m e l :
  is_negative (binary_round_aux prec emax false m e l) = false.
Proof.
  unfold binary_round_aux.
  destruct (shr_fexp prec emax m e l) as [mrs' e'].
  destruct (shr_fexp prec emax _ e' loc_Exact) as [mrs'' e''].
  destruct (shr_m mrs''); [reflexivity | | reflexivity].
  destruct (e'' <=? emax - prec)%Z; reflexivity.
Qed.

Lemma round_decimal_nonneg m e : is_negative (round_decimal false m e) = false.
Proof.
  unfold round_decimal.
  destruct (0 <=? e)%Z.
  - destruct (m * 10 ^ e)%Z; try reflexivity.
    unfold binary_round. destruct (shl_align _ _ _) as [mz ez].
    apply binary_round_aux_nonneg.
  - destruct m; try reflexivity. destruct (10 ^ (- e))%Z; try reflexivity.
    unfold SFdiv. destruct (SFdiv_core_binary _ _ _ _ _ _) as [[mz ez] lz].
    apply binary_round_aux_nonneg.
Qed.

Lemma strip_sign_head c s s' :
  fst (strip_sign (String c s)) = fst (strip_sign (String c s')).
Proof.
  unfold strip_sign.
  destruct c as [[|] [|] [|] [|] [|] [|] [|] [|]]; reflexivity.
Qed.

Lemma rstrip_head ws c s :
  rstrip ws (String c s) = EmptyString \/
  exists r, rstrip ws (String c s) = String c r.
Proof.
  cbn [rstrip]. destruct (rstrip ws s).
  - destruct (ws c); eauto.
  - eauto.
Qed.

Lemma remove_underscores_head c s t :
  remove_underscores (String c s) "000" = Some t -> exists t', t = String c t'.
Proof.
  cbn [remove_underscores].
  destruct (Ascii.eqb c "_"); [discriminate|].
  cbn [Ascii.eqb andb Bool.eqb].
  destruct (remove_underscores s c) as [t'|]; [|discriminate].
  intros [= <-]. eauto.
Qed.

(** A magnitude token without a leading minus sign is never read as a
    negative float. *)
Lemma py_float_nonneg value x :
  starts_with_minus value = false ->
  py_float value = Some x ->
  is_negative x = false.
Proof.
  unfold starts_with_minus, py_float.
  destruct (lstrip num_isspace value) as [|c s]; [discriminate|].
  intros Hsign.
  destruct (rstrip_head num_isspace c s) as [-> | [r ->]]; [discriminate|].
  destruct (remove_underscores (String c r) "000") as [t|] eqn:Et; [|discriminate].
  apply remove_underscores_head in Et as [t' ->].
  rewrite (strip_sign_head c s t') in Hsign.
  unfold parse_decimal, parse_inf_or_nan.
  destruct (strip_sign (String c t')) as [neg s1]. cbn [fst] in Hsign. subst neg.
  destruct (take_digits s1 0 0) as [[ip ni] s2].
  destruct (match s2 with
            | String "." s2' => let '(v, n, r0) := take_digits s2' ip 0 in (v, n, r0)
            | _ => (ip, 0%Z, s2)
            end) as [[m nf] s3].
  destruct ((ni + nf =? 0)%Z).
  - destruct (_ || _); [now intros [= <-]|].
    destruct (String.eqb _ _); [now intros [= <-]|discriminate].
  - destruct (take_exponent s3) as [ex [|a b]].
    + intros [= <-]. apply round_decimal_nonneg.
    + destruct (_ || _); [now intros [= <-]|].
      destruct (String.eqb _ _); [now intros [= <-]|discriminate].
Qed.

(** X13: the update [coeff *= -1] is exact: multiplying a binary64 number
    by the integer -1 flips its sign and changes nothing else, with no
    rounding, for zeros, infinities and NaN as well. *)
Lemma float_mul_int_m1 x :
  valid_binary prec emax x = true -> float_mul_int x (-1) = SFopp x.
Proof.
  unfold float_mul_int.
  change (float_of_int (-1)) with (S754_finite true 4503599627370496 (-52)).
  destruct x as [s|s| |s m e]; cbn [valid_binary SFmul SFopp]; intros Hv;
    try (destruct s; reflexivity); try reflexivity.
  unfold bounded, canonical_mantissa in Hv.
  apply andb_true_iff in Hv as [Hc Hb].
  apply Z.eqb_eq in Hc.
  replace (xorb s true) with (negb s) by (destruct s; reflexivity).
  rewrite Pos.mul_comm. cbn [Pos.mul].
  match goal with |- binary_round_aux _ _ _ (Z.pos ?P) _ _ = _ =>
    assert (H1 : shr_fexp prec emax (Z.pos P) (e + -52) loc_Exact
                 = ({| shr_m := Z.pos m; shr_r := false; shr_s := false |}, e))
  end.
  { unfold shr_fexp. cbn [Zdigits2 digits2_pos]. rewrite !Pos2Z.inj_succ.
    match goal with |- context [fexp prec emax ?a] =>
      replace a with (Z.pos (digits2_pos m) + e)%Z by lia end.
    rewrite Hc. replace (e - (e + -52))%Z with 52%Z by lia.
    unfold shr. cbn. f_equal. lia. }
  unfold binary_round_aux. rewrite H1.
  cbn [shr_m loc_of_shr_record round_nearest_even shr_r shr_s].
  unfold shr_fexp. cbn [Zdigits2]. rewrite Hc, Z.sub_diag.
  cbn [shr shr_record_of_loc shr_m]. now rewrite Hb.
Qed.

(** Whatever the sign token, a term is parsed as with ["-"] when the
    token is exactly ["-"], and as with ["+"] otherwise. *)
Lemma parse_tokens_sign sign value pauli :
  parse_tokens (sign :: value :: pauli)
  = parse_tokens ((if String.eqb sign "-" then "-" else "+") :: value :: pauli).
Proof.
  unfold parse_tokens. cbn [getitem nth_error skipn]. rewrite !bind_ret_l.
  destruct (String.eqb sign "-"); reflexivity.
Qed.

(** C10, as the code has it: the coefficient is negated, its sign
    flipped, only when the sign token is exactly ["-"].  Any other sign
    token is accepted without an error and behaves as ["+"]: the
    coefficient is the float of the magnitude token as it is, whose sign
    bit is set only if the magnitude token itself starts with a minus
    sign. *)
Theorem sign_token_only_minus sign value pauli x o op :
  py_float value = Some x ->
  pauli_token_to_operator pauli = (o, Return op) ->
  parse_tokens (sign :: value :: pauli)
  = (o, Return (if String.eqb sign "-" then SFopp x else x, op)) /\
  parse_tokens (sign :: value :: pauli)
  = parse_tokens ((if String.eqb sign "-" then "-" else "+") :: value :: pauli) /\
  (String.eqb sign "-" = false -> starts_with_minus value = false ->
   is_negative x = false).
Proof.
  intros Hx Hp. split; [|split].
  - unfold parse_tokens. cbn [getitem nth_error skipn]. rewrite !bind_ret_l.
    unfold float_. rewrite Hx, bind_ret_l.
    rewrite (bind_Return _ _ _ _ Hp), (coefficient_negated value x Hx).
    cbn. now rewrite app_nil_r.
  - apply parse_tokens_sign.
  - intros _ Hv. exact (py_float_nonneg value x Hv Hx).
Qed.

Lemma sign_token_only_minus_witness :
  parse_tokens ["*"; "2.5"; "Z0"; "X1"]
  = ([], Return (S754_finite false 5629499534213120 (-51), Matmul (PauliZ 0) (PauliX 1))) /\
  parse_tokens ["*"; "2.5"; "Z0"; "X1"] = parse_tokens ["+"; "2.5"; "Z0"; "X1"] /\
  is_negative (S754_finite false 5629499534213120 (-51)) = false.
Proof.
  destruct (sign_token_only_minus "*" "2.5" ["Z0"; "X1"]
              (S754_finite false 5629499534213120 (-51)) []
              (Matmul (PauliZ 0) (PauliX 1)) eq_refl eq_refl)
    as (Hparse & Hsign & Hpos).
  split; [exact Hparse|]. split; [exact Hsign|].
  exact (Hpos eq_refl eq_refl).
Defined.

(** C10 as stated fails where it has the coefficient left positive: with
    the sign token ["+"] and the magnitude token ["-1.0"] the coefficient
    is -1.0. *)
Lemma plus_sign_negative_coefficient :
  tokens_of "+ -1.0 Z0" = ["+"; "-1.0"; "Z0"] /\
  parse_hamiltonian_input "+ -1.0 Z0"
  = ([], Return (mkHamiltonian [float_m1] [PauliZ 0])) /\
  is_negative float_m1 = true.
Proof. vm_compute. repeat split. Qed.

(** ** What the parser prints *)

Lemma token_step_stdout q t o q' :
  token_step q t = (o, Return q') -> o = diagnostics (filter malformed [t]).
Proof.
  unfold token_step, malformed, diagnostics. cbn [filter].
  destruct (String.eqb t "I"); [now intros [= <- _]|].
  destruct t as [|c d]; [discriminate|]. unfold int_. cbn [negb andb].
  destruct (Ascii.eqb c "X"); [destruct (py_int d); [now intros [= <- _]|discriminate]|].
  destruct (Ascii.eqb c "Y"); [destruct (py_int d); [now intros [= <- _]|discriminate]|].
  destruct (Ascii.eqb c "Z"); [destruct (py_int d); [now intros [= <- _]|discriminate]|].
  now intros [= <- _].
Qed.

Lemma diagnostics_app a b : diagnostics (a ++ b) = diagnostics a ++ diagnostics b.
Proof. apply map_app. Qed.

Lemma token_loop_stdout token : forall q o q',
  token_loop token q = (o, Return q') -> o = diagnostics (filter malformed token).
Proof.
  induction token as [|t rest IH]; intros q o q'; cbn [token_loop].
  - now intros [= <- _].
  - intros H. apply bind_inv_Return in H as (o1 & q1 & o2 & Hs & Hl & ->).
    apply token_step_stdout in Hs. apply IH in Hl. subst.
    rewrite <- diagnostics_app. f_equal. cbn [filter].
    destruct (malformed t); reflexivity.
Qed.

Lemma parse_tokens_stdout tokens o r :
  parse_tokens tokens = (o, Return r) ->
  o = diagnostics (filter malformed (skipn 2 tokens)).
Proof.
  unfold parse_tokens. intros H.
  apply bind_inv_Return in H as (o1 & sign & o2 & Hsign & H & ->).
  apply bind_inv_Return in H as (o3 & value & o4 & Hvalue & H & ->).
  apply bind_inv_Return in H as (o5 & x & o6 & Hx & H & ->).
  apply bind_inv_Return in H as (o7 & op & o8 & Hop & H & ->).
  unfold getitem in Hsign, Hvalue. unfold float_ in Hx.
  destruct (nth_error tokens 0); [|discriminate].
  destruct (nth_error tokens 1); [|discriminate].
  destruct (py_float value); [|discriminate].
  injection Hsign as <- _. injection Hvalue as <- _. injection Hx as <- _.
  injection H as <- _.
  unfold pauli_token_to_operator in Hop.
  apply bind_inv_Return in Hop as (oa & qs & ob & Hloop & Hk & ->).
  apply token_loop_stdout in Hloop. subst oa.
  apply bind_inv_Return in Hk as (oc & ft & od & Hg & Hr & ->).
  unfold getitem in Hg. destruct (nth_error qs 0); [|discriminate].
  injection Hg as <- _. injection Hr as <- _.
  cbn [app]. now rewrite !app_nil_r.
Qed.

Lemma run_lines_stdout lines : forall o rs,
  run_lines lines = (o, Return rs) ->
  o = diagnostics
        (flat_map (fun line => filter malformed (skipn 2 (tokens_of line))) lines).
Proof.
  induction lines as [|line rest IH]; intros o rs; cbn [run_lines flat_map].
  - now intros [= <- _].
  - intros H. apply bind_inv_Return in H as (o1 & r & o2 & Hl & H & ->).
    apply bind_inv_Return in H as (o3 & rs' & o4 & Hr & H & ->).
    injection H as <- _. rewrite parse_line_tokens in Hl.
    apply parse_tokens_stdout in Hl. apply IH in Hr. subst.
    now rewrite diagnostics_app, app_nil_r.
Qed.

Lemma parse_hamiltonian_input_stdout input o H :
  parse_hamiltonian_input input = (o, Return H) ->
  o = diagnostics (malformed_tokens input).
Proof.
  rewrite parse_hamiltonian_input_run. unfold omap.
  destruct (run_lines (split "S" input)) as [o' [rs|e]] eqn:E; cbn [fst snd];
    [|discriminate].
  intros [= <- _]. now apply run_lines_stdout in E.
Qed.

(** Whether it returns or raises, the parser prints nothing but
    diagnostic lines. *)
Lemma token_loop_only_diagnostics token : forall q,
  Forall (eq "Invalid input.") (stdout (token_loop token q)).
Proof.
  induction token as [|t rest IH]; intros q; cbn [token_loop].
  - constructor.
  - assert (Hs : Forall (eq "Invalid input.") (stdout (token_step q t))).
    { unfold token_step. destruct (String.eqb t "I"); [constructor|].
      destruct t as [|c d]; [constructor|]. unfold int_.
      destruct (Ascii.eqb c "X"); [destruct (py_int d); constructor|].
      destruct (Ascii.eqb c "Y"); [destruct (py_int d); constructor|].
      destruct (Ascii.eqb c "Z"); [destruct (py_int d); constructor|].
      repeat constructor. }
    unfold bind. destruct (token_step q t) as [o [q'|e]]; [|exact Hs].
    specialize (IH q'). destruct (token_loop rest q') as [o' r].
    apply Forall_app. split; assumption.
Qed.

Lemma parse_tokens_only_diagnostics tokens :
  Forall (eq "Invalid input.") (stdout (parse_tokens tokens)).
Proof.
  unfold parse_tokens, getitem, float_.
  destruct (nth_error tokens 0) as [sign|]; [|constructor].
  destruct (nth_error tokens 1) as [value|]; [|constructor].
  rewrite !bind_ret_l.
  destruct (py_float value) as [x|]; [|constructor].
  rewrite bind_ret_l. unfold pauli_token_to_operator.
  pose proof (token_loop_only_diagnostics (skipn 2 tokens) []) as Hl.
  unfold bind. destruct (token_loop (skipn 2 tokens) []) as [o [qs|e]]; [|exact Hl].
  unfold getitem. destruct (nth_error qs 0); cbn; rewrite ?app_nil_r; exact Hl.
Qed.

Lemma run_lines_only_diagnostics lines :
  Forall (eq "Invalid input.") (stdout (run_lines lines)).
Proof.
  induction lines as [|line rest IH]; cbn [run_lines]; [constructor|].
  pose proof (parse_tokens_only_diagnostics (tokens_of line)) as Hl.
  rewrite parse_line_tokens. unfold bind.
  destruct (parse_tokens (tokens_of line)) as [o [r|e]]; [|exact Hl].
  destruct (run_lines rest) as [o' [rs|e]]; cbn in *; rewrite ?app_nil_r;
    apply Forall_app; split; assumption.
Qed.

Lemma parse_hamiltonian_input_only_diagnostics input :
  Forall (eq "Invalid input.") (stdout (parse_hamiltonian_input input)).
Proof.
  rewrite parse_hamiltonian_input_run. exact (run_lines_only_diagnostics _).
Qed.

(** ** The drivers *)

Lemma setitem_length {A} (l : list A) : forall i v l',
  setitem l i v = Return l' -> List.length l' = List.length l.
Proof.
  induction l as [|x t IH]; intros i v l'; cbn [setitem]; [discriminate|].
  destruct i as [|i]; [now intros [= <-]|].
  destruct (setitem t i v) as [t'|e] eqn:E; cbn [bindR]; [|discriminate].
  intros [= <-]. cbn. f_equal. eauto.
Qed.

Section EigensolverFacts.

Variables Params Lib : Type.
Variable num_wires : Hamiltonian -> nat.
Variable random_uniform : nat * nat * nat -> Lib -> Lib * Params.
Variable energy : Hamiltonian -> Params -> result float.
Variable overlap : nat -> Params -> Params -> result float.
Variable step_and_cost :
  (Params -> result float) -> Params -> Lib -> Lib * result (Params * float).
Variable str_float : float -> string.

Local Notation eigen_loop' :=
  (eigen_loop Params Lib num_wires random_uniform energy overlap step_and_cost).
Local Notation find_excited_states' :=
  (find_excited_states Params Lib num_wires random_uniform energy overlap
     step_and_cost str_float).
Local Notation main_vqe' :=
  (main_vqe Params Lib num_wires random_uniform energy overlap
     step_and_cost str_float).

Lemma eigen_loop_length range H : forall energies prev_params lib lib' es,
  eigen_loop' range H energies prev_params lib = (lib', Return es) ->
  List.length es = List.length energies.
Proof.
  induction range as [|i rest IH]; intros energies prev_params lib lib' es;
    cbn [eigen_loop].
  - now intros [= _ <-].
  - unfold bindS, liftR.
    destruct (random_uniform _ lib) as [lib1 p].
    destruct (optimise _ _ _ _ _ _ _ _ _ _ lib1) as [lib2 [p'|e]]; [|discriminate].
    destruct (energy H p') as [en|e]; [|discriminate].
    destruct (setitem energies i en) as [energies'|e] eqn:Es; [|discriminate].
    intros Hrest. apply IH in Hrest. rewrite Hrest. now apply setitem_length in Es.
Qed.

(** On success [find_excited_states] returns three float strings joined
    by [","]. *)
Lemma find_excited_states_three H lib lib' s :
  find_excited_states' H lib = (lib', Return s) ->
  exists e0 e1 e2,
    s = join "," [str_float e0; str_float e1; str_float e2].
Proof.
  unfold find_excited_states, bindS, retS.
  destruct (eigen_loop' _ H _ _ lib) as [lib1 [es|e]] eqn:E; [|discriminate].
  intros [= _ <-]. apply eigen_loop_length in E. cbn in E.
  destruct es as [|e0 [|e1 [|e2 [|e3 es]]]]; try discriminate.
  now exists e0, e1, e2.
Qed.

Lemma main_vqe_parse_raises stdin lib o e :
  parse_hamiltonian_input stdin = (o, Raise e) ->
  main_vqe' stdin lib = (o, Raise e).
Proof. unfold main_vqe. now intros ->. Qed.

Lemma main_vqe_success stdin lib o :
  main_vqe' stdin lib = (o, Return tt) ->
  exists e0 e1 e2,
    o = diagnostics (malformed_tokens stdin)
        ++ [join "," [str_float e0; str_float e1; str_float e2]].
Proof.
  unfold main_vqe.
  destruct (parse_hamiltonian_input stdin) as [o1 [H|e]] eqn:Ep; [|discriminate].
  destruct (find_excited_states' H lib) as [lib' [s|e]] eqn:Ef; [|discriminate].
  intros [= <-]. apply parse_hamiltonian_input_stdout in Ep. subst o1.
  apply find_excited_states_three in Ef as (e0 & e1 & e2 & ->).
  now exists e0, e1, e2.
Qed.

(** A term whose magnitude is not a float ends the run of the lines. *)
Lemma run_lines_bad_magnitude ls1 line ls2 sign value pauli :
  tokens_of line = sign :: value :: pauli ->
  py_float value = None ->
  exists o e,
    run_lines (ls1 ++ line :: ls2) = (o, Raise e) /\
    (forall o1 rs, run_lines ls1 = (o1, Return rs) ->
                   o = o1 /\ e = ValueError_float value).
Proof.
  intros Htok Hv.
  assert (Hline : parse_line line = ([], Raise (ValueError_float value))).
  { rewrite parse_line_tokens, Htok. unfold parse_tokens.
    cbn [getitem nth_error]. rewrite !bind_ret_l. unfold float_. now rewrite Hv. }
  induction ls1 as [|a ls1 IH]; cbn [app run_lines].
  - rewrite Hline. cbn. exists [], (ValueError_float value). split; [reflexivity|].
    now intros o1 rs [= <- _].
  - destruct IH as (o & e & Hrun & Hok).
    destruct (parse_line a) as [oa [ra|ea]] eqn:Ea.
    + exists (oa ++ o), e. rewrite Hrun. cbn. split; [reflexivity|].
      intros o1 rs. destruct (run_lines ls1) as [ob [rb|eb]]; cbn; [|discriminate].
      intros [= <- _]. destruct (Hok ob rb eq_refl) as [-> ->].
      now rewrite app_nil_r.
    + exists oa, ea. cbn. split; [reflexivity|]. discriminate.
Qed.

End EigensolverFacts.

(** C9, as the code has it: on success the rotation script prints
    exactly one line, a float; the eigensolver script prints one line
    ["Invalid input."] for each malformed Pauli token of its input and
    then one line made of three float strings joined by [","], which is
    its only line when the input has no malformed token. *)
Theorem scripts_print_on_success :
  (forall (qnode : nat -> tape float -> result pyval)
          (str_float : float -> string) stdin o,
      main_rotation qnode str_float stdin = (o, Return tt) ->
      exists x, o = [str_float x]) /\
  (forall (Params Lib : Type) num_wires random_uniform energy overlap
          step_and_cost (str_float : float -> string) stdin lib o,
      main_vqe Params Lib num_wires random_uniform energy overlap
        step_and_cost str_float stdin lib = (o, Return tt) ->
      exists e0 e1 e2,
        o = diagnostics (malformed_tokens stdin)
            ++ [join "," [str_float e0; str_float e1; str_float e2]]).
Proof.
  split.
  - intros qnode str_float stdin o. unfold main_rotation, float_.
    destruct (py_float stdin) as [angle|]; [|discriminate].
    rewrite bind_ret_l. unfold simple_circuits_30.
    destruct (qnode 1%nat (simplecircuit angle)) as [ans|e]; [|discriminate].
    cbn [bind app].
    destruct ans as [x|data|].
    + cbn. intros [= <-]. now exists x.
    + unfold item. destruct data as [|x [|y data]]; try discriminate.
      cbn. intros [= <-]. now exists x.
    + discriminate.
  - intros. eapply main_vqe_success. eassumption.
Qed.

Lemma scripts_print_on_success_witness :
  (exists x : float, ["0.0"] = [(fun _ : float => "0.0") x]) /\
  (exists e0 e1 e2 : float,
      ["Invalid input."; "0.0,0.0,0.0"]
      = diagnostics (malformed_tokens "+ 1.0 Z0 Q1")
        ++ [join "," [(fun _ : float => "0.0") e0; (fun _ : float => "0.0") e1;
                      (fun _ : float => "0.0") e2]]).
Proof.
  split.
  - apply (proj1 scripts_print_on_success
             (fun _ _ => Return (NpTensor [S754_zero false])) (fun _ => "0.0") "0").
    vm_compute. reflexivity.
  - apply (proj2 scripts_print_on_success unit unit
             (fun _ => 1%nat) (fun _ lib => (lib, tt))
             (fun _ _ => Return (S754_zero false))
             (fun _ _ _ => Return (S754_zero false))
             (fun _ p lib => (lib, Return (p, S754_zero false)))
             (fun _ => "0.0") "+ 1.0 Z0 Q1" tt).
    vm_compute. reflexivity.
Defined.

(** C9 as stated fails for the eigensolver script: after a malformed
    Pauli token a successful run has printed two lines, the diagnostic
    and the energies. *)
Lemma eigensolver_prints_diagnostic_too :
  malformed_tokens "+ 1.0 Z0 Q1" = ["Q1"] /\
  (forall (Params Lib : Type) num_wires random_uniform energy overlap
          step_and_cost (str_float : float -> string) lib o,
      main_vqe Params Lib num_wires random_uniform energy overlap
        step_and_cost str_float "+ 1.0 Z0 Q1" lib = (o, Return tt) ->
      List.length o = 2%nat /\ nth_error o 0 = Some "Invalid input.") /\
  main_vqe unit unit (fun _ => 1%nat) (fun _ lib => (lib, tt))
    (fun _ _ => Return (S754_zero false))
    (fun _ _ _ => Return (S754_zero false))
    (fun _ p lib => (lib, Return (p, S754_zero false)))
    (fun _ => "0.0") "+ 1.0 Z0 Q1" tt
  = (["Invalid input."; "0.0,0.0,0.0"], Return tt).
Proof.
  split; [reflexivity|]. split; [|vm_compute; reflexivity].
  intros. 
  match goal with H : main_vqe _ _ _ _ _ _ _ _ _ _ = _ |- _ =>
    apply main_vqe_success in H as (e0 & e1 & e2 & ->) end.
  split; reflexivity.
Qed.

(** C6, as the code has it: a magnitude token that [float] rejects ends
    the run with an uncaught exception and the status 1, and the line of
    the result is not printed.  The rotation script prints nothing and
    the exception is the [ValueError] of [float].  The eigensolver script
    has printed nothing but diagnostic lines; when the terms before the
    offending one are parsed, these are their diagnostics and the
    exception is the [ValueError] of [float] on that token. *)
Theorem bad_magnitude_raises :
  (forall (qnode : nat -> tape float -> result pyval)
          (str_float : float -> string) stdin,
      py_float stdin = None ->
      main_rotation qnode str_float stdin = ([], Raise (ValueError_float stdin))) /\
  (forall (Params Lib : Type) num_wires random_uniform energy overlap
          step_and_cost (str_float : float -> string) stdin lib
          ls1 line ls2 sign value pauli,
      split "S" stdin = ls1 ++ line :: ls2 ->
      tokens_of line = sign :: value :: pauli ->
      py_float value = None ->
      exists o e,
        main_vqe Params Lib num_wires random_uniform energy overlap
          step_and_cost str_float stdin lib = (o, Raise e) /\
        exit_status (@Raise unit e) = 1%nat /\
        Forall (eq "Invalid input.") o /\
        (forall o1 rs, run_lines ls1 = (o1, Return rs) ->
                       o = o1 /\ e = ValueError_float value)).
Proof.
  split.
  - intros qnode str_float stdin H. unfold main_rotation, float_. now rewrite H.
  - intros Params Lib num_wires random_uniform energy overlap step_and_cost
      str_float stdin lib ls1 line ls2 sign value pauli Hs Htok Hv.
    destruct (run_lines_bad_magnitude ls1 line ls2 sign value pauli Htok Hv)
      as (o & e & Hrun & Hok).
    assert (Hp : parse_hamiltonian_input stdin = (o, Raise e)).
    { rewrite parse_hamiltonian_input_run, Hs, Hrun. reflexivity. }
    exists o, e. split; [now apply main_vqe_parse_raises|].
    split; [reflexivity|]. split; [|exact Hok].
    pose proof (parse_hamiltonian_input_only_diagnostics stdin) as Hd.
    now rewrite Hp in Hd.
Qed.

Lemma bad_magnitude_raises_witness :
  main_rotation (fun _ _ => Return PyOther) (fun _ => "0.0") "abc"
  = ([], Raise (ValueError_float "abc")) /\
  exists o e,
    main_vqe unit unit (fun _ => 1%nat) (fun _ lib => (lib, tt))
      (fun _ _ => Return (S754_zero false))
      (fun _ _ _ => Return (S754_zero false))
      (fun _ p lib => (lib, Return (p, S754_zero false)))
      (fun _ => "0.0") "+ 1.0 Z0S- 1,5 X0" tt = (o, Raise e) /\
    exit_status (@Raise unit e) = 1%nat /\
    Forall (eq "Invalid input.") o /\
    (forall o1 rs, run_lines ["+ 1.0 Z0"] = (o1, Return rs) ->
                   o = o1 /\ e = ValueError_float "1,5").
Proof.
  split.
  - apply (proj1 bad_magnitude_raises). reflexivity.
  - apply (proj2 bad_magnitude_raises unit unit _ _ _ _ _ _
             "+ 1.0 Z0S- 1,5 X0" tt ["+ 1.0 Z0"] "- 1,5 X0" [] "-" "1,5" ["X0"]);
      reflexivity.
Defined.

(** C6 as stated fails for the eigensolver script: a line has been
    printed when an earlier term had a malformed Pauli token, and the
    exception is not one of numeric parsing when an earlier term has no
    Pauli token. *)
Lemma bad_magnitude_after_diagnostic :
  split "S" "+ 1.0 Z0 Q1S+ abc Z0" = ["+ 1.0 Z0 Q1"; "+ abc Z0"] /\
  tokens_of "+ abc Z0" = ["+"; "abc"; "Z0"] /\
  py_float "abc" = None /\
  (forall (Params Lib : Type) num_wires random_uniform energy overlap
          step_and_cost (str_float : float -> string) lib,
      main_vqe Params Lib num_wires random_uniform energy overlap
        step_and_cost str_float "+ 1.0 Z0 Q1S+ abc Z0" lib
      = (["Invalid input."], Raise (ValueError_float "abc"))) /\
  (forall (Params Lib : Type) num_wires random_uniform energy overlap
          step_and_cost (str_float : float -> string) lib,
      main_vqe Params Lib num_wires random_uniform energy overlap
        step_and_cost str_float "+ 1.0S+ abc Z0" lib
      = ([], Raise IndexError_list)).
Proof.
  repeat split; intros; apply main_vqe_parse_raises; vm_compute; reflexivity.
Qed.


(** * Further properties of the parser and the drivers *)

(** ** Splitting *)

Lemma split_nonempty sep s : split sep s <> [].
Proof.
  destruct s as [|c s']; cbn [split]; [discriminate|].
  destruct (Ascii.eqb c sep); [discriminate|].
  destruct (split sep s'); discriminate.
Qed.

Lemma split_app_sep sep a b :
  split sep (a ++ String sep b) = split sep a ++ split sep b.
Proof.
  induction a as [|c a IH]; cbn [String.append split].
  - now rewrite Ascii.eqb_refl.
  - destruct (Ascii.eqb c sep); [now rewrite IH|].
    rewrite IH. pose proof (split_nonempty sep a) as Hne.
    destruct (split sep a) as [|h t]; [contradiction|reflexivity].
Qed.

Lemma split_snoc sep c s :
  Ascii.eqb c sep = false ->
  exists init last,
    split sep s = init ++ [last] /\
    split sep (s ++ String c EmptyString) = init ++ [(last ++ String c EmptyString)%string].
Proof.
  intros Hc. induction s as [|a s IH]; cbn [String.append split].
  - rewrite Hc. now exists [], EmptyString.
  - destruct IH as (init & last & Hs & Hs').
    destruct (Ascii.eqb a sep).
    + exists (EmptyString :: init), last. now rewrite Hs, Hs'.
    + rewrite Hs, Hs'. destruct init as [|h t].
      * now exists [], (String a last).
      * now exists (String a h :: t), last.
Qed.

Lemma split_length sep s : List.length (split sep s) = S (count_char sep s).
Proof.
  induction s as [|a s IH]; cbn [split count_char]; [reflexivity|].
  destruct (Ascii.eqb a sep); cbn [List.length Nat.add]; [now rewrite IH|].
  pose proof (split_nonempty sep s) as Hne.
  destruct (split sep s) as [|h t]; [contradiction|exact IH].
Qed.

Lemma split_without sep s : count_char sep s = 0%nat -> split sep s = [s].
Proof.
  induction s as [|a s IH]; cbn [split count_char]; [reflexivity|].
  destruct (Ascii.eqb a sep); [discriminate|].
  intros H. now rewrite (IH H).
Qed.

(** ** Stripping *)

Lemma rstrip_snoc ws c s :
  ws c = true -> rstrip ws (s ++ String c EmptyString) = rstrip ws s.
Proof.
  intros Hc. induction s as [|a s IH]; cbn [String.append rstrip].
  - now rewrite Hc.
  - now rewrite IH.
Qed.

Lemma strip_snoc c s :
  py_isspace c = true -> strip (s ++ String c EmptyString) = strip s.
Proof.
  intros Hc. unfold strip. induction s as [|a s IH]; cbn [String.append lstrip].
  - now rewrite Hc.
  - destruct (py_isspace a); [exact IH|].
    exact (rstrip_snoc py_isspace c (String a s) Hc).
Qed.

Lemma strip_cons c s : py_isspace c = true -> strip (String c s) = strip s.
Proof. intros Hc. unfold strip. cbn [lstrip]. now rewrite Hc. Qed.

Lemma isspace_not_S c : py_isspace c = true -> Ascii.eqb c "S" = false.
Proof.
  intros Hc. destruct (Ascii.eqb_spec c "S") as [->|]; [discriminate|reflexivity].
Qed.

(** ** Lines one after the other *)

Lemma run_lines_app a b :
  run_lines (a ++ b)
  = bind (run_lines a) (fun ra => bind (run_lines b) (fun rb => ret (ra ++ rb))).
Proof.
  induction a as [|l a IH]; cbn [app run_lines].
  - rewrite bind_ret_l. destruct (run_lines b) as [o [rb|e]]; cbn;
      now rewrite ?app_nil_r.
  - rewrite IH, !bind_assoc. unfold bind at 1 5.
    destruct (parse_line l) as [o [r|e]]; [|reflexivity].
    f_equal. rewrite !bind_assoc. unfold bind at 1 4.
    destruct (run_lines a) as [oa [ra|e]]; [|reflexivity].
    rewrite bind_assoc, bind_ret_l. unfold bind at 1 3.
    destruct (run_lines b) as [ob [rb|e]]; [|reflexivity].
    now rewrite !bind_ret_l.
Qed.

Lemma Forall2_In_left {A B} (P : A -> B -> Prop) l l' x :
  Forall2 P l l' -> In x l -> exists y, P x y.
Proof.
  induction 1 as [|a b l l' Hab _ IH]; cbn; [contradiction|].
  intros [<-|Hin]; eauto.
Qed.

Lemma parse_fails_with_line input line :
  In line (split "S" input) ->
  (forall o r, parse_line line <> (o, Return r)) ->
  exists o e, parse_hamiltonian_input input = (o, Raise e).
Proof.
  intros Hin Hline. rewrite parse_hamiltonian_input_run. unfold omap.
  destruct (run_lines (split "S" input)) as [o' [rs|e]] eqn:E; cbn [fst snd];
    [|eauto].
  apply run_lines_Forall2 in E.
  destruct (Forall2_In_left _ _ _ _ E Hin) as (r & oi & Hr).
  now destruct (Hline oi r).
Qed.

(** ** Where and how the parser fails *)

(** X1: the parse stops at the first term that fails.  What has been
    printed is what the terms before it and the failing term printed,
    the exception is that of the failing term, and the terms after it
    play no part. *)
Theorem parse_stops_at_first_failure input ls1 line ls2 o1 rs ol e :
  split "S" input = ls1 ++ line :: ls2 ->
  run_lines ls1 = (o1, Return rs) ->
  parse_line line = (ol, Raise e) ->
  parse_hamiltonian_input input = (o1 ++ ol, Raise e).
Proof.
  intros Hs Hrun Hline.
  rewrite parse_hamiltonian_input_run, Hs, run_lines_app.
  rewrite (bind_Return _ _ _ _ Hrun). cbn [run_lines].
  rewrite !(bind_Raise _ _ _ _ Hline). reflexivity.
Qed.

Lemma parse_stops_at_first_failure_witness :
  parse_hamiltonian_input "+ 1.0 Z0 Q1S+ 2.0 Xa q3S+ oops"
  = (["Invalid input."] ++ [], Raise (ValueError_int "a")).
Proof.
  apply (parse_stops_at_first_failure _ ["+ 1.0 Z0 Q1"] "+ 2.0 Xa q3" ["+ oops"]
           ["Invalid input."] [(float_1, PauliZ 0)] [] (ValueError_int "a"));
    reflexivity.
Defined.

Lemma token_step_raises q t o e :
  token_step q t = (o, Raise e) -> parser_exn e.
Proof.
  unfold token_step, parser_exn, int_.
  destruct (String.eqb t "I"); [discriminate|].
  destruct t as [|c d]; [intros [= _ <-]; auto|].
  destruct (Ascii.eqb c "X");
    [destruct (py_int d) eqn:E; [discriminate|intros [= _ <-]; eauto 7]|].
  destruct (Ascii.eqb c "Y");
    [destruct (py_int d) eqn:E; [discriminate|intros [= _ <-]; eauto 7]|].
  destruct (Ascii.eqb c "Z");
    [destruct (py_int d) eqn:E; [discriminate|intros [= _ <-]; eauto 7]|].
  discriminate.
Qed.

Lemma token_loop_raises token : forall q o e,
  token_loop token q = (o, Raise e) -> parser_exn e.
Proof.
  induction token as [|t rest IH]; intros q o e; cbn [token_loop]; [discriminate|].
  unfold bind. destruct (token_step q t) as [o1 [q'|e1]] eqn:Es.
  - destruct (token_loop rest q') as [o2 r] eqn:El. intros [= _ ->].
    eapply IH. eassumption.
  - intros [= _ <-]. eapply token_step_raises. eassumption.
Qed.

Lemma parse_tokens_raises tokens o e :
  parse_tokens tokens = (o, Raise e) -> parser_exn e.
Proof.
  unfold parse_tokens, getitem, float_.
  destruct (nth_error tokens 0) as [sign|]; [|intros [= _ <-]; left; reflexivity].
  destruct (nth_error tokens 1) as [value|]; [|intros [= _ <-]; left; reflexivity].
  rewrite !bind_ret_l.
  destruct (py_float value) as [x|] eqn:Ex;
    [|intros [= _ <-]; right; right; left; eauto].
  rewrite bind_ret_l. unfold pauli_token_to_operator, bind.
  destruct (token_loop (skipn 2 tokens) []) as [o1 [qs|e1]] eqn:El.
  - unfold getitem. destruct (nth_error qs 0); cbn; [discriminate|].
    intros [= _ <-]. left; reflexivity.
  - intros [= _ <-]. eapply token_loop_raises. eassumption.
Qed.

Lemma run_lines_raises lines : forall o e,
  run_lines lines = (o, Raise e) -> parser_exn e.
Proof.
  induction lines as [|line rest IH]; intros o e; cbn [run_lines]; [discriminate|].
  rewrite parse_line_tokens. unfold bind.
  destruct (parse_tokens (tokens_of line)) as [o1 [r|e1]] eqn:Et.
  - destruct (run_lines rest) as [o2 [rs|e2]] eqn:Er; cbn; [discriminate|].
    intros [= _ <-]. eapply IH. reflexivity.
  - intros [= _ <-]. eapply parse_tokens_raises. eassumption.
Qed.

(** X2: whatever the input, [parse_hamiltonian_input] raises nothing but
    an [IndexError] or the [ValueError] of [float] or [int] on a string
    they reject.  In particular the two lists it hands to
    [qml.Hamiltonian] never differ in length. *)
Theorem parse_raises_only input o e :
  parse_hamiltonian_input input = (o, Raise e) ->
  parser_exn e /\ e <> ValueError_Hamiltonian.
Proof.
  rewrite parse_hamiltonian_input_run. unfold omap.
  destruct (run_lines (split "S" input)) as [o' [rs|e']] eqn:E; cbn [fst snd];
    [discriminate|].
  intros [= _ <-]. apply run_lines_raises in E. split; [exact E|].
  intros ->. destruct E as [E|[E|[(v & E & _)|(d & E & _)]]]; discriminate.
Qed.

Lemma parse_raises_only_witness :
  parser_exn IndexError_string /\ IndexError_string <> ValueError_Hamiltonian.
Proof.
  apply (parse_raises_only "+ 1.0 Z0  X1" []). reflexivity.
Defined.

(** X3: a term that has no space inside once stripped, such as the empty
    term that an empty input, a doubled delimiter or a delimiter at
    either end leaves, raises [IndexError] for the missing magnitude
    token before anything is printed for it, and an input with such a
    term is never parsed. *)
Theorem term_without_space_fails input line :
  In line (split "S" input) ->
  count_char " " (strip line) = 0%nat ->
  parse_line line = ([], Raise IndexError_list) /\
  exists o e, parse_hamiltonian_input input = (o, Raise e).
Proof.
  intros Hin Hc.
  assert (Hline : parse_line line = ([], Raise IndexError_list)).
  { rewrite parse_line_tokens. unfold tokens_of.
    rewrite (split_without " " _ Hc). reflexivity. }
  split; [exact Hline|].
  apply (parse_fails_with_line input line Hin).
  intros o r. rewrite Hline. discriminate.
Qed.

Lemma term_without_space_fails_witness :
  parse_line "" = ([], Raise IndexError_list) /\
  exists o e, parse_hamiltonian_input "+ 1.0 Z0 S" = (o, Raise e).
Proof.
  apply (term_without_space_fails "+ 1.0 Z0 S" "").
  - right. left. reflexivity.
  - reflexivity.
Defined.

Lemma token_step_raising q t :
  raising_token t = true -> exists e, token_step q t = ([], Raise e).
Proof.
  unfold raising_token, token_step, int_.
  destruct t as [|c d]; [intros _; eexists; reflexivity|].
  intros H. apply andb_true_iff in H as [Hc Hd].
  destruct (py_int d); [discriminate|].
  destruct (Ascii.eqb_spec c "X") as [->|_]; [cbn; eauto|].
  destruct (Ascii.eqb_spec c "Y") as [->|_]; [cbn; eauto|].
  destruct (Ascii.eqb_spec c "Z") as [->|_]; [cbn; eauto|].
  discriminate.
Qed.

Lemma token_loop_Return_no_raising token : forall q o q',
  token_loop token q = (o, Return q') ->
  forall t, In t token -> raising_token t = false.
Proof.
  induction token as [|a rest IH]; intros q o q' H t; cbn [In]; [contradiction|].
  cbn [token_loop] in H.
  apply bind_inv_Return in H as (o1 & q1 & o2 & Hs & Hl & _).
  intros [<-|Hin]; [|eapply IH; eassumption].
  destruct (raising_token a) eqn:Er; [|reflexivity].
  destruct (token_step_raising q a Er) as [e He]. congruence.
Qed.

(** X4: unlike a malformed letter, an empty Pauli token (two spaces in a
    row) or a letter X, Y, Z whose index [int] rejects (the bare letter
    included) is not skipped: wherever it stands among the Pauli tokens
    of a term, the input is not parsed. *)
Theorem raising_token_fails input line t :
  In line (split "S" input) ->
  In t (skipn 2 (tokens_of line)) ->
  raising_token t = true ->
  exists o e, parse_hamiltonian_input input = (o, Raise e).
Proof.
  intros Hline Ht Hr. apply (parse_fails_with_line input line Hline).
  intros o r. rewrite parse_line_tokens. unfold parse_tokens. intros Hp.
  apply bind_inv_Return in Hp as (o1 & sign & o2 & _ & Hp & _).
  apply bind_inv_Return in Hp as (o3 & value & o4 & _ & Hp & _).
  apply bind_inv_Return in Hp as (o5 & x & o6 & _ & Hp & _).
  apply bind_inv_Return in Hp as (o7 & op & o8 & Hop & _ & _).
  unfold pauli_token_to_operator in Hop.
  apply bind_inv_Return in Hop as (oa & qs & ob & Hloop & _ & _).
  pose proof (token_loop_Return_no_raising _ _ _ _ Hloop t Ht). congruence.
Qed.

Lemma raising_token_fails_witness :
  exists o e, parse_hamiltonian_input "+ 1.0 Z0 Q1 X" = (o, Raise e).
Proof.
  apply (raising_token_fails "+ 1.0 Z0 Q1 X" "+ 1.0 Z0 Q1 X" "X").
  - left. reflexivity.
  - right. right. left. reflexivity.
  - reflexivity.
Defined.

(** ** How terms and inputs compose *)

Lemma token_step_quiet q t :
  malformed t = false -> stdout (token_step q t) = [].
Proof.
  unfold malformed, token_step, int_.
  destruct (String.eqb t "I"); [reflexivity|].
  destruct t as [|c d]; [reflexivity|]. cbn [negb andb].
  destruct (Ascii.eqb c "X"); [destruct (py_int d); reflexivity|].
  destruct (Ascii.eqb c "Y"); [destruct (py_int d); reflexivity|].
  destruct (Ascii.eqb c "Z"); [destruct (py_int d); reflexivity|].
  discriminate.
Qed.

Lemma token_loop_filter token : forall q,
  token_loop (filter (fun t => negb (malformed t)) token) q
  = ([], outcome (token_loop token q)).
Proof.
  induction token as [|t rest IH]; intros q; cbn [filter token_loop]; [reflexivity|].
  destruct (malformed t) eqn:Em; cbn [negb].
  - rewrite (bind_Return _ _ _ _ (token_step_malformed q t Em)). apply IH.
  - cbn [token_loop]. pose proof (token_step_quiet q t Em) as Hq.
    unfold bind. destruct (token_step q t) as [o [q'|e]]; cbn in Hq; subst o;
      [|reflexivity].
    rewrite IH. now destruct (token_loop rest q').
Qed.

(** X5: the operator of a term, or the exception it ends in, is that of
    the term with its malformed tokens taken out, on which nothing is
    printed. *)
Theorem malformed_tokens_filtered (token : list string) :
  pauli_token_to_operator (filter (fun t => negb (malformed t)) token)
  = ([], outcome (pauli_token_to_operator token)).
Proof.
  unfold pauli_token_to_operator. rewrite token_loop_filter.
  unfold bind, outcome.
  destruct (token_loop token []) as [o [qs|e]]; cbn [snd]; [|reflexivity].
  unfold getitem. now destruct (nth_error qs 0).
Qed.

(** X6: a well-formed Pauli token added at the end of a term that is
    parsed multiplies its operator on the right, and adds nothing to
    what is printed. *)
Theorem pauli_token_appended token t o A op :
  pauli_token_to_operator token = (o, Return A) ->
  token_operator t = Some op ->
  pauli_token_to_operator (token ++ [t]) = (o, Return (Matmul A op)).
Proof.
  unfold pauli_token_to_operator. intros H Ht.
  apply bind_inv_Return in H as (o1 & qs & o2 & Hloop & Hk & ->).
  destruct qs as [|first rest]; [discriminate|].
  cbn in Hk. injection Hk as <- <-.
  rewrite token_loop_app, (bind_Return _ _ _ _ Hloop). cbn [token_loop].
  rewrite (bind_Return _ _ _ _ (token_operator_step t op (first :: rest) Ht)).
  cbn. rewrite fold_left_app, !app_nil_r. reflexivity.
Qed.

Lemma pauli_token_appended_witness :
  pauli_token_to_operator (["Z0"; "q"; "X1"] ++ ["Y2"])
  = (["Invalid input."], Return (Matmul (Matmul (PauliZ 0) (PauliX 1)) (PauliY 2))).
Proof.
  apply (pauli_token_appended ["Z0"; "q"; "X1"] "Y2"); reflexivity.
Defined.

(** X7: two inputs that are parsed, joined by the delimiter, are parsed
    to the Hamiltonian that has the terms of the first followed by the
    terms of the second, and what is printed is what the two print, in
    that order. *)
Theorem parse_joined_inputs a b oa ob Ha Hb :
  parse_hamiltonian_input a = (oa, Return Ha) ->
  parse_hamiltonian_input b = (ob, Return Hb) ->
  parse_hamiltonian_input (a ++ String "S" b)
  = (oa ++ ob,
     Return (mkHamiltonian (coeffs Ha ++ coeffs Hb) (ops Ha ++ ops Hb))).
Proof.
  rewrite !parse_hamiltonian_input_run, split_app_sep, run_lines_app.
  unfold omap.
  destruct (run_lines (split "S" a)) as [o1 [ra|e]]; cbn [fst snd]; [|discriminate].
  destruct (run_lines (split "S" b)) as [o2 [rb|e]]; cbn [fst snd]; [|discriminate].
  intros [= <- <-] [= <- <-]. cbn. now rewrite app_nil_r, !map_app.
Qed.

Lemma parse_joined_inputs_witness :
  parse_hamiltonian_input ("+ 1.0 Z0 q" ++ String "S" "- 1.0 X0")
  = (["Invalid input."] ++ [],
     Return (mkHamiltonian (coeffs (mkHamiltonian [float_1] [PauliZ 0])
                            ++ coeffs (mkHamiltonian [float_m1] [PauliX 0]))
                           (ops (mkHamiltonian [float_1] [PauliZ 0])
                            ++ ops (mkHamiltonian [float_m1] [PauliX 0])))).
Proof.
  apply (parse_joined_inputs "+ 1.0 Z0 q" "- 1.0 X0"); reflexivity.
Defined.

Lemma run_lines_last init l l' :
  parse_line l = parse_line l' ->
  run_lines (init ++ [l]) = run_lines (init ++ [l']).
Proof.
  intros H. rewrite !run_lines_app. cbn [run_lines]. now rewrite H.
Qed.

Lemma parse_line_strip l l' : strip l = strip l' -> parse_line l = parse_line l'.
Proof. intros H. unfold parse_line. now rewrite H. Qed.

(** X8: white space at either end of the input, such as the newline that
    ends a file, changes nothing: the same lines are printed and the
    same Hamiltonian or exception results. *)
Theorem surrounding_space_ignored (c : ascii) (input : string) :
  py_isspace c = true ->
  parse_hamiltonian_input (input ++ String c EmptyString)
  = parse_hamiltonian_input input /\
  parse_hamiltonian_input (String c input) = parse_hamiltonian_input input.
Proof.
  intros Hc. pose proof (isspace_not_S c Hc) as HS.
  rewrite !parse_hamiltonian_input_run. split; f_equal.
  - destruct (split_snoc "S" c input HS) as (init & last & -> & ->).
    apply run_lines_last, parse_line_strip, strip_snoc, Hc.
  - cbn [split]. rewrite HS.
    pose proof (split_nonempty "S" input) as Hne.
    destruct (split "S" input) as [|h t]; [contradiction|].
    cbn [run_lines]. now rewrite (parse_line_strip _ _ (strip_cons c h Hc)).
Qed.

Lemma surrounding_space_ignored_witness :
  parse_hamiltonian_input ("+ 1.0 Z0 S- 1.0 X0" ++ String "010" EmptyString)
  = parse_hamiltonian_input "+ 1.0 Z0 S- 1.0 X0" /\
  parse_hamiltonian_input (String "010" "+ 1.0 Z0 S- 1.0 X0")
  = parse_hamiltonian_input "+ 1.0 Z0 S- 1.0 X0".
Proof.
  apply (surrounding_space_ignored "010" "+ 1.0 Z0 S- 1.0 X0"). reflexivity.
Defined.

(** X9: a Hamiltonian that is parsed has one term more than its input
    has delimiters: every [S] of the input separates two terms, whatever
    stands around it. *)
Theorem terms_counted input o H :
  parse_hamiltonian_input input = (o, Return H) ->
  List.length (coeffs H) = S (count_char "S" input) /\
  List.length (ops H) = S (count_char "S" input).
Proof.
  rewrite parse_hamiltonian_input_run. unfold omap.
  destruct (run_lines (split "S" input)) as [o' [rs|e]] eqn:E; cbn [fst snd];
    [|discriminate].
  intros [= <- <-]. cbn [coeffs ops]. rewrite !length_map.
  apply run_lines_Forall2, Forall2_length in E.
  rewrite <- E, split_length. split; reflexivity.
Qed.

Lemma terms_counted_witness :
  List.length (coeffs (mkHamiltonian [float_1; float_m1] [PauliZ 0; PauliX 0]))
  = S (count_char "S" "+ 1.0 Z0 S- 1.0 X0") /\
  List.length (ops (mkHamiltonian [float_1; float_m1] [PauliZ 0; PauliX 0]))
  = S (count_char "S" "+ 1.0 Z0 S- 1.0 X0").
Proof.
  apply (terms_counted "+ 1.0 Z0 S- 1.0 X0" []). reflexivity.
Defined.

Lemma float_mul_int_m1_witness : float_mul_int float_1 (-1) = SFopp float_1.
Proof. apply (float_mul_int_m1 float_1). reflexivity. Defined.

(** ** Signed qubit indices *)

Lemma py_int_signed (u : Decimal.uint) :
  u <> Decimal.Nil ->
  within_int_limit u = true ->
  py_int (String "-" (DecimalString.NilEmpty.string_of_uint u))
  = Some (- Z.of_uint u)%Z /\
  py_int (String "+" (DecimalString.NilEmpty.string_of_uint u))
  = Some (Z.of_uint u).
Proof.
  intros Hu Hl. unfold Z.of_uint. rewrite DecimalPos.Unsigned.of_uint_alt.
  unfold py_int. cbn [lstrip].
  change (num_isspace "-") with false. change (num_isspace "+") with false.
  cbv iota. cbn [strip_sign].
  destruct (digits_head u Hu) as (c & s & Hs & Hd & _ & _).
  pose proof (scan_int_uint u 0 0) as Hscan. rewrite Hs in Hscan |- *.
  rewrite Hd, Hscan. cbn [Z.add].
  unfold within_int_limit in Hl. rewrite Z.ltb_antisym, Hl.
  cbn [negb lstrip]. split; reflexivity.
Qed.

(** X10: the qubit index is read by [int], sign included: a letter X, Y
    or Z followed by a minus sign and decimal digits, no more than the
    4300 that [int] converts, gives the operator on the wire of that
    negative number, and a plus sign before the digits changes
    nothing. *)
Theorem signed_index_accepted (letter : ascii) (index : Decimal.uint) op op' :
  index <> Decimal.Nil ->
  within_int_limit index = true ->
  pauli_operator letter (- Z.of_uint index) = Some op ->
  pauli_operator letter (Z.of_uint index) = Some op' ->
  pauli_token_to_operator
    [String letter (String "-" (DecimalString.NilEmpty.string_of_uint index))]
  = ([], Return op) /\
  pauli_token_to_operator
    [String letter (String "+" (DecimalString.NilEmpty.string_of_uint index))]
  = ([], Return op').
Proof.
  intros Hi Hl Hop Hop'. destruct (py_int_signed index Hi Hl) as [Hm Hp].
  unfold pauli_token_to_operator. cbn [token_loop]. unfold token_step, int_.
  cbn [String.eqb]. rewrite Hm, Hp.
  unfold pauli_operator in Hop, Hop'.
  destruct (Ascii.eqb letter "I"); cbn [andb];
    (destruct (Ascii.eqb letter "X");
      [injection Hop as <-; injection Hop' as <-; split; reflexivity|]);
    (destruct (Ascii.eqb letter "Y");
      [injection Hop as <-; injection Hop' as <-; split; reflexivity|]);
    (destruct (Ascii.eqb letter "Z");
      [injection Hop as <-; injection Hop' as <-; split; reflexivity|]);
    discriminate.
Qed.

Lemma signed_index_accepted_witness :
  pauli_token_to_operator ["X-12"] = ([], Return (PauliX (-12))) /\
  pauli_token_to_operator ["X+12"] = ([], Return (PauliX 12)).
Proof.
  apply (signed_index_accepted "X" (Decimal.D1 (Decimal.D2 Decimal.Nil)));
    [discriminate | reflexivity | reflexivity | reflexivity].
Defined.

(** ** The end of a run *)

Lemma setitem_nth {A} (l : list A) : forall i v l',
  setitem l i v = Return l' ->
  nth_error l' i = Some v /\
  forall j, j <> i -> nth_error l' j = nth_error l j.
Proof.
  induction l as [|x t IH]; intros i v l'; cbn [setitem]; [discriminate|].
  destruct i as [|i].
  - intros [= <-]. split; [reflexivity|]. intros [|j] Hj; [contradiction|reflexivity].
  - destruct (setitem t i v) as [t'|e] eqn:E; cbn [bindR]; [|discriminate].
    intros [= <-]. destruct (IH i v t' E) as [Hi Hother].
    split; [exact Hi|]. intros [|j] Hj; [reflexivity|].
    cbn [nth_error]. apply Hother. congruence.
Qed.

Section EigensolverRuns.

Variables Params Lib : Type.
Variable num_wires : Hamiltonian -> nat.
Variable random_uniform : nat * nat * nat -> Lib -> Lib * Params.
Variable energy : Hamiltonian -> Params -> result float.
Variable overlap : nat -> Params -> Params -> result float.
Variable step_and_cost :
  (Params -> result float) -> Params -> Lib -> Lib * result (Params * float).
Variable str_float : float -> string.

Local Notation eigen_loop' :=
  (eigen_loop Params Lib num_wires random_uniform energy overlap step_and_cost).
Local Notation find_excited_states' :=
  (find_excited_states Params Lib num_wires random_uniform energy overlap
     step_and_cost str_float).
Local Notation main_vqe' :=
  (main_vqe Params Lib num_wires random_uniform energy overlap
     step_and_cost str_float).

Lemma eigen_loop_energies range H : forall energies prev_params lib lib' es,
  eigen_loop' range H energies prev_params lib = (lib', Return es) ->
  forall j,
    (In j range ->
     exists e params, nth_error es j = Some e /\ energy H params = Return e) /\
    (~ In j range -> nth_error es j = nth_error energies j).
Proof.
  induction range as [|i rest IH]; intros energies prev_params lib lib' es;
    cbn [eigen_loop].
  - intros [= _ <-] j. split; [contradiction|reflexivity].
  - unfold bindS, liftR.
    destruct (random_uniform _ lib) as [lib1 p].
    destruct (optimise _ _ _ _ _ _ _ _ _ _ lib1) as [lib2 [p'|e]]; [|discriminate].
    destruct (energy H p') as [en|e] eqn:Een; [|discriminate].
    destruct (setitem energies i en) as [energies'|e] eqn:Es; [|discriminate].
    intros Hrest j. destruct (IH _ _ _ _ _ Hrest j) as [Hin Hout].
    destruct (setitem_nth _ _ _ _ Es) as [Hi Hother].
    destruct (in_dec Nat.eq_dec j rest) as [Hj|Hj].
    + split; [intros _; now apply Hin|]. intros Hn. destruct Hn. now right.
    + rewrite (Hout Hj). split.
      * intros [<-|Hr]; [|contradiction]. eauto.
      * intros Hn. apply Hother. intros ->. apply Hn. now left.
Qed.

Lemma find_excited_states_energies H lib lib' s :
  find_excited_states' H lib = (lib', Return s) ->
  exists e0 e1 e2 p0 p1 p2,
    energy H p0 = Return e0 /\ energy H p1 = Return e1 /\
    energy H p2 = Return e2 /\
    s = join "," [str_float e0; str_float e1; str_float e2].
Proof.
  unfold find_excited_states, bindS, retS.
  destruct (eigen_loop' _ H _ _ lib) as [lib1 [es|e]] eqn:E; [|discriminate].
  intros [= _ <-].
  pose proof E as Hlen. apply eigen_loop_length in Hlen.
  pose proof (eigen_loop_energies _ _ _ _ _ _ _ E) as Hen.
  cbn in Hlen. destruct es as [|e0 [|e1 [|e2 [|e3 es]]]]; try discriminate.
  destruct (proj1 (Hen 0%nat)) as (x0 & p0 & [= <-] & H0); [cbn; auto|].
  destruct (proj1 (Hen 1%nat)) as (x1 & p1 & [= <-] & H1); [cbn; auto|].
  destruct (proj1 (Hen 2%nat)) as (x2 & p2 & [= <-] & H2); [cbn; auto|].
  now exists e0, e1, e2, p0, p1, p2.
Qed.

Lemma main_vqe_raises_stdout stdin lib o e :
  main_vqe' stdin lib = (o, Raise e) -> Forall (eq "Invalid input.") o.
Proof.
  unfold main_vqe.
  pose proof (parse_hamiltonian_input_only_diagnostics stdin) as Hd.
  destruct (parse_hamiltonian_input stdin) as [o1 [H|e1]]; cbn in Hd.
  - destruct (find_excited_states' H lib) as [lib' [s|e2]]; [discriminate|].
    now intros [= <- _].
  - now intros [= <- _].
Qed.

End EigensolverRuns.

(** X11: a run that ends in an exception has not printed its result.
    The rotation script has printed nothing at all, and the eigensolver
    script nothing but the diagnostics of the parser, whether the
    exception comes from the parser or from the library. *)
Theorem no_result_line_on_failure :
  (forall (qnode : nat -> tape float -> result pyval)
          (str_float : float -> string) stdin o e,
      main_rotation qnode str_float stdin = (o, Raise e) -> o = []) /\
  (forall (Params Lib : Type) num_wires random_uniform energy overlap
          step_and_cost (str_float : float -> string) stdin lib o e,
      main_vqe Params Lib num_wires random_uniform energy overlap
        step_and_cost str_float stdin lib = (o, Raise e) ->
      Forall (eq "Invalid input.") o).
Proof.
  split.
  - intros qnode str_float stdin o e. unfold main_rotation, float_.
    destruct (py_float stdin) as [angle|]; [|now intros [= <- _]].
    rewrite bind_ret_l. unfold simple_circuits_30.
    destruct (qnode 1%nat (simplecircuit angle)) as [ans|e']; [|now intros [= <- _]].
    cbn [bind app].
    destruct ans as [x|data|]; cbn.
    + discriminate.
    + unfold item. destruct data as [|x [|y data]]; cbn;
        first [discriminate | now intros [= <- _]].
    + now intros [= <- _].
  - intros. eapply main_vqe_raises_stdout. eassumption.
Qed.

Lemma no_result_line_on_failure_witness :
  @nil string = [] /\ Forall (eq "Invalid input.") ["Invalid input."].
Proof.
  split.
  - apply (proj1 no_result_line_on_failure
             (fun _ _ => Return (NpTensor [S754_zero false; S754_zero false]))
             (fun _ => "0.0") "0.5" [] ValueError_item).
    reflexivity.
  - apply (proj2 no_result_line_on_failure unit unit
             (fun _ => 1%nat) (fun _ lib => (lib, tt))
             (fun _ _ => Raise (TypeError "device"))
             (fun _ _ _ => Return (S754_zero false))
             (fun _ p lib => (lib, Return (p, S754_zero false)))
             (fun _ => "0.0") "+ 1.0 Z0 Q1" tt ["Invalid input."]
             (TypeError "device")).
    vm_compute. reflexivity.
Defined.

Section SearchOrder.

Variables Params Lib : Type.
Variable num_wires : Hamiltonian -> nat.
Variable random_uniform : nat * nat * nat -> Lib -> Lib * Params.
Variable energy : Hamiltonian -> Params -> result float.
Variable overlap : nat -> Params -> Params -> result float.
Variable step_and_cost :
  (Params -> result float) -> Params -> Lib -> Lib * result (Params * float).
Variable str_float : float -> string.

Local Notation find_excited_states' :=
  (find_excited_states Params Lib num_wires random_uniform energy overlap
     step_and_cost str_float).
Local Notation three_searches' :=
  (three_searches Params Lib num_wires random_uniform energy overlap
     step_and_cost).

Lemma searches_give_output H lib lib' e0 e1 e2 :
  three_searches' H lib lib' e0 e1 e2 ->
  find_excited_states' H lib
  = (lib', Return (join "," [str_float e0; str_float e1; str_float e2])).
Proof.
  intros (q0 & q1 & q2 & p0 & p1 & p2 & l1 & l2 & l3 & l4 & l5 &
          R0 & O0 & E0 & R1 & O1 & E1 & R2 & O2 & E2).
  unfold find_excited_states, num_eigen. cbn [seq eigen_loop repeat].
  unfold bindS, liftR, retS.
  rewrite R0, O0, E0. cbn [setitem bindR app].
  rewrite R1, O1, E1. cbn [setitem bindR app].
  rewrite R2, O2, E2. cbn [setitem bindR app map].
  reflexivity.
Qed.


End SearchOrder.



(** C7: the energies are returned in the order of the three searches,
    whatever their values: nothing sorts them.  Whenever the third search
    ends on an energy below that of the second, as it does when the
    Hamiltonian acts on one qubit and has two eigenvalues only, the
    result is not sorted, against the docstring's "sorted from smallest
    to largest". *)
Theorem energies_in_search_order (Params Lib : Type) num_wires random_uniform
  (energy : Hamiltonian -> Params -> result float) overlap
  step_and_cost (str_float : float -> string) H (lib lib' : Lib) e0 e1 e2 :
  three_searches Params Lib num_wires random_uniform energy overlap
    step_and_cost H lib lib' e0 e1 e2 ->
  SFltb e2 e1 = true ->
  find_excited_states Params Lib num_wires random_uniform energy overlap
    step_and_cost str_float H lib
  = (lib', Return (join "," [str_float e0; str_float e1; str_float e2])) /\
  ascending3 e0 e1 e2 = false.
Proof.
  intros Hs Hlt. split; [now apply searches_give_output|].
  unfold ascending3. rewrite Hlt. apply andb_false_r.
Qed.

Lemma energies_in_search_order_witness :
  find_excited_states nat nat (fun _ => 1%nat) (fun _ lib => (S lib, lib))
    (fun _ p => Return (nth p [float_m1; float_1] (S754_zero false)))
    (fun _ _ _ => Return (S754_zero false))
    (fun _ p lib => (lib, Return (p, S754_zero false)))
    (fun x => if is_negative x then "-" else "+")
    (mkHamiltonian [float_1] [PauliZ 0]) 0%nat
  = (3%nat,
     Return (join "," [(fun x : float => if is_negative x then "-" else "+") float_m1;
                       (fun x : float => if is_negative x then "-" else "+") float_1;
                       (fun x : float => if is_negative x then "-" else "+")
                         (S754_zero false)])) /\
  ascending3 float_m1 float_1 (S754_zero false) = false.
Proof.
  apply (energies_in_search_order nat nat (fun _ => 1%nat) (fun _ lib => (S lib, lib))
           (fun _ p => Return (nth p [float_m1; float_1] (S754_zero false)))
           (fun _ _ _ => Return (S754_zero false))
           (fun _ p lib => (lib, Return (p, S754_zero false)))
           (fun x => if is_negative x then "-" else "+")
           (mkHamiltonian [float_1] [PauliZ 0]) 0%nat 3%nat
           float_m1 float_1 (S754_zero false)).
  - exists 0%nat, 1%nat, 2%nat, 0%nat, 1%nat, 2%nat,
      1%nat, 1%nat, 2%nat, 2%nat, 3%nat.
    repeat split; vm_compute; reflexivity.
  - reflexivity.
Defined.
